(** * Derivatives Pricing Library: Black-Scholes and Monte Carlo pricers

    A shallow embedding of the two functions of [OptionsLib.ipynb],
    [black_scholes] and [monte_carlo_european], and the properties of them
    that the specification states.

    Conventions of the embedding.
    - A Python [float] is a real number ([R]); rounding and overflow are
      outside the model.  Division, [np.log] and [np.sqrt] are the total
      functions of the Rocq library: a theorem about values carries the
      hypotheses that keep their arguments inside the domain, and
      [MonteCarloNaN] embeds the simulation pricer once more with the
      not-a-number of [np.sqrt] kept.
    - A numpy array is a 0-dimensional or a 1-dimensional [ndarray]; binary
      operations on two arrays follow numpy's broadcasting rule and raise
      [ValueError] when the shapes do not broadcast together.
    - A Python [int] is an integer ([Z]); a [str] is a [string].
    - An exception is a value of [exn]; code that can raise returns a
      [result].
    - The legacy global generator of [np.random] is an explicit
      [RandomState] threaded through [monte_carlo_european]. *)

From Stdlib Require Import String Bool ZArith List Reals Lra Lia.
Import ListNotations.
Open Scope string_scope.
Open Scope R_scope.

(** ** The standard normal distribution ([scipy.stats.norm]) *)

Module Norm.

(** Coefficients of the Maclaurin series
    [int_0^x exp (- u^2 / 2) du = x * sum_n cof n * (x^2 / 2)^n]. *)
Definition cof (n : nat) : R := (-1) ^ n / (INR (fact n) * INR (2 * n + 1)).

Lemma cof_neq_0 (n : nat) : cof n <> 0.
Proof.
  unfold cof, Rdiv.
  apply Rmult_integral_contrapositive_currified.
  - apply pow_nonzero; lra.
  - apply Rinv_neq_0_compat, Rmult_integral_contrapositive_currified.
    + apply INR_fact_neq_0.
    + apply not_0_INR; lia.
Qed.

Lemma cof_ratio (n : nat) :
  Rabs (cof (S n) / cof n) = INR (2 * n + 1) / (INR (S n) * INR (2 * n + 3)).
Proof.
  assert (Hf : INR (fact n) <> 0) by apply INR_fact_neq_0.
  assert (H1 : 0 < INR (2 * n + 1)) by (apply lt_0_INR; lia).
  assert (H3 : 0 < INR (2 * n + 3)) by (apply lt_0_INR; lia).
  assert (Hs : 0 < INR (S n)) by (apply lt_0_INR; lia).
  assert (Hp : (-1) ^ n <> 0) by (apply pow_nonzero; lra).
  unfold cof.
  replace (2 * S n + 1)%nat with (2 * n + 3)%nat by lia.
  rewrite fact_simpl, mult_INR. simpl pow.
  replace (-1 * (-1) ^ n / (INR (S n) * INR (fact n) * INR (2 * n + 3)) /
           ((-1) ^ n / (INR (fact n) * INR (2 * n + 1))))
    with (- (INR (2 * n + 1) / (INR (S n) * INR (2 * n + 3))))
    by (field; repeat split; lra).
  rewrite Rabs_Ropp, Rabs_pos_eq; [reflexivity|].
  apply Rlt_le, Rdiv_lt_0_compat; [lra | apply Rmult_lt_0_compat; lra].
Qed.

Lemma Alembert_cof : Un_cv (fun n => Rabs (cof (S n) / cof n)) 0.
Proof.
  intros eps Heps.
  destruct (archimed_cor1 eps Heps) as (N & HN & HN0).
  exists N. intros n Hn.
  unfold Rdist. rewrite Rminus_0_r, Rabs_Rabsolu, cof_ratio.
  assert (H1 : 0 < INR (2 * n + 1)) by (apply lt_0_INR; lia).
  assert (Hs : 0 < INR (S n)) by (apply lt_0_INR; lia).
  assert (HNpos : 0 < INR N) by (apply lt_0_INR; lia).
  assert (Hle : INR N <= INR (S n)) by (apply le_INR; lia).
  assert (H13 : INR (2 * n + 3) = INR (2 * n + 1) + 2)
    by (rewrite !plus_INR; simpl; lra).
  apply Rle_lt_trans with (/ INR N); [|exact HN].
  apply Rle_trans with (/ INR (S n)).
  - rewrite H13.
    replace (INR (2 * n + 1) / (INR (S n) * (INR (2 * n + 1) + 2)))
      with (/ INR (S n) * (INR (2 * n + 1) / (INR (2 * n + 1) + 2)))
      by (field; lra).
    rewrite <- (Rmult_1_r (/ INR (S n))) at 2.
    apply Rmult_le_compat_l; [apply Rlt_le, Rinv_0_lt_compat; lra|].
    apply Rmult_le_reg_r with (INR (2 * n + 1) + 2); [lra|].
    unfold Rdiv. rewrite Rmult_assoc, Rinv_l; lra.
  - apply Rinv_le_contravar; lra.
Qed.

(** The sum of the series at [y]. *)
Definition series (y : R) : R :=
  proj1_sig (Alembert_C3 cof y cof_neq_0 Alembert_cof).

Lemma series_spec (y : R) : Pser cof y (series y).
Proof. unfold series. apply proj2_sig. Qed.

(** [norm.pdf]: the density [exp (- x^2 / 2) / sqrt (2 pi)]. *)
Definition pdf (x : R) : R := exp (- (x * x) / 2) / sqrt (2 * PI).

(** [norm.cdf]: one half plus the integral of the density from [0] to [x],
    by its everywhere convergent series. *)
Definition cdf (x : R) : R :=
  1 / 2 + x / sqrt (2 * PI) * series (x * x / 2).

Lemma cdf_opp (x : R) : cdf (- x) = 1 - cdf x.
Proof.
  unfold cdf. replace (- x * - x / 2) with (x * x / 2) by lra.
  unfold Rdiv. lra.
Qed.

Lemma cdf_0 : cdf 0 = 1 / 2.
Proof. unfold cdf, Rdiv. lra. Qed.

Lemma pdf_pos (x : R) : 0 < pdf x.
Proof.
  unfold pdf. apply Rdiv_lt_0_compat; [apply exp_pos|].
  apply sqrt_lt_R0. pose proof PI_RGT_0. lra.
Qed.

End Norm.

(** ** Exceptions and results *)

(** The Python exceptions the two functions can raise. *)
Inductive exn : Type :=
| ValueError (msg : string)
| ZeroDivisionError.

Inductive result (A : Type) : Type :=
| Ok (a : A)
| Raise (e : exn).

Arguments Ok {A} a.
Arguments Raise {A} e.

Definition bind {A B : Type} (m : result A) (k : A -> result B) : result B :=
  match m with
  | Ok a => k a
  | Raise e => Raise e
  end.

Notation "x <- m ;; k" := (bind m (fun x => k))
  (at level 61, m at next level, right associativity).

(** ** numpy arrays of dimension 0 and 1 *)

Module Numpy.

Inductive ndarray : Type :=
| Scalar (x : R)
| Vector (l : list R).

(** [None] is the shape [()], [Some n] the shape [(n,)]. *)
Definition shape : Type := option nat.

Definition np_shape (a : ndarray) : shape :=
  match a with
  | Scalar _ => None
  | Vector l => Some (length l)
  end.

(** The elements in order ([ndarray.ravel]). *)
Definition ravel (a : ndarray) : list R :=
  match a with
  | Scalar x => [x]
  | Vector l => l
  end.

(** [np.broadcast_shapes] on two shapes; [None] when they do not broadcast. *)
Definition broadcast_shapes (s1 s2 : shape) : option shape :=
  match s1, s2 with
  | None, _ => Some s2
  | _, None => Some s1
  | Some n, Some m =>
      if (n =? m)%nat then Some (Some n)
      else if (n =? 1)%nat then Some (Some m)
      else if (m =? 1)%nat then Some (Some n)
      else None
  end.

(** The element of [a] that broadcasting reads at position [i] of the
    result: a 0-dimensional array and an array of length one are stretched. *)
Definition item (a : ndarray) (i : nat) : R :=
  match a with
  | Scalar x => x
  | Vector l => if (length l =? 1)%nat then nth 0 l 0 else nth i l 0
  end.

(** The array of shape [s] whose element at [i] is [g i]. *)
Definition tabulate (s : shape) (g : nat -> R) : ndarray :=
  match s with
  | None => Scalar (g 0%nat)
  | Some n => Vector (map g (seq 0 n))
  end.

(** A unary ufunc, and a binary operator one of whose operands is a Python
    float: elementwise, same shape. *)
Definition ufunc1 (f : R -> R) (a : ndarray) : ndarray :=
  match a with
  | Scalar x => Scalar (f x)
  | Vector l => Vector (map f l)
  end.

Definition broadcast_error : exn :=
  ValueError "operands could not be broadcast together".

(** A binary ufunc on two arrays. *)
Definition ufunc2 (f : R -> R -> R) (a b : ndarray) : result ndarray :=
  match broadcast_shapes (np_shape a) (np_shape b) with
  | Some s => Ok (tabulate s (fun i => f (item a i) (item b i)))
  | None => Raise broadcast_error
  end.

Definition Rle_bool (x y : R) : bool := if Rle_dec x y then true else false.

(** [np.any(a <= c)]. *)
Definition any_le (a : ndarray) (c : R) : bool :=
  existsb (fun x => Rle_bool x c) (ravel a).

Definition zeros_like (a : ndarray) : ndarray := ufunc1 (fun _ => 0) a.

Definition np_sqrt : ndarray -> ndarray := ufunc1 sqrt.
Definition np_log : ndarray -> ndarray := ufunc1 ln.
Definition np_exp : ndarray -> ndarray := ufunc1 exp.
Definition np_neg : ndarray -> ndarray := ufunc1 Ropp.
Definition np_square : ndarray -> ndarray := ufunc1 (fun x => x ^ 2).
Definition norm_cdf : ndarray -> ndarray := ufunc1 Norm.cdf.
Definition norm_pdf : ndarray -> ndarray := ufunc1 Norm.pdf.

(** [c + a], [c * a] and [np.maximum(c, a)] for a Python float [c]. *)
Definition float_add (c : R) : ndarray -> ndarray := ufunc1 (fun x => c + x).
Definition float_mul (c : R) : ndarray -> ndarray := ufunc1 (fun x => c * x).
Definition float_maximum (c : R) : ndarray -> ndarray := ufunc1 (fun x => Rmax c x).

Definition np_add : ndarray -> ndarray -> result ndarray := ufunc2 Rplus.
Definition np_sub : ndarray -> ndarray -> result ndarray := ufunc2 Rminus.
Definition np_mul : ndarray -> ndarray -> result ndarray := ufunc2 Rmult.
Definition np_div : ndarray -> ndarray -> result ndarray := ufunc2 Rdiv.

(** *** Shapes and elements under broadcasting *)

(** [fits s' s]: an array of shape [s'] broadcasts to the shape [s]. *)
Definition fits (s' s : shape) : Prop := broadcast_shapes s' s = Some s.

(** The broadcast of two shapes that have one. *)
Definition bjoin (s1 s2 : shape) : shape :=
  match broadcast_shapes s1 s2 with
  | Some s => s
  | None => s1
  end.

(** The positions of an array of shape [s]. *)
Definition valid_index (s : shape) (i : nat) : Prop :=
  match s with
  | None => True
  | Some n => (i < n)%nat
  end.

(** [np.broadcast_shapes] on four shapes. *)
Definition broadcast_shapes4 (s1 s2 s3 s4 : shape) : option shape :=
  match broadcast_shapes s1 s2 with
  | Some s12 =>
      match broadcast_shapes s12 s3 with
      | Some s123 => broadcast_shapes s123 s4
      | None => None
      end
  | None => None
  end.

(** The result of a binary ufunc whose operands broadcast together. *)
Definition zip (f : R -> R -> R) (a b : ndarray) : ndarray :=
  tabulate (bjoin (np_shape a) (np_shape b)) (fun i => f (item a i) (item b i)).

(** [denotes s a g]: [a] broadcasts to the shape [s], and stretched to it
    its element at position [i] is [g i]. *)
Definition denotes (s : shape) (a : ndarray) (g : nat -> R) : Prop :=
  fits (np_shape a) s /\ forall i, valid_index s i -> item a i = g i.

End Numpy.

(** ** The closed-form pricer [black_scholes] *)

Module BlackScholes.
Import Numpy.

(** The returned tuple [(price, delta, gamma, vega, theta, rho)]. *)
Record greeks : Type := Greeks {
  price : ndarray;
  delta : ndarray;
  gamma : ndarray;
  vega : ndarray;
  theta : ndarray;
  rho : ndarray
}.

Definition dquote : string :=
  String (Ascii.Ascii false true false false false true false false) EmptyString.

(** [ValueError('Invalid option type. Choose "Call" or "Put".')] *)
Definition invalid_option_type : exn :=
  ValueError ("Invalid option type. Choose " ++ dquote ++ "Call" ++ dquote
              ++ " or " ++ dquote ++ "Put" ++ dquote ++ ".").

Definition black_scholes (S K : ndarray) (r : R) (t sigma : ndarray)
    (option_Type : string) (q : R) : result greeks :=
  if any_le t 0 then
    intrinsic_value <-
      (if (option_Type =? "Call")%string
       then S_K <- np_sub S K ;; Ok (float_maximum 0 S_K)
       else K_S <- np_sub K S ;; Ok (float_maximum 0 K_S)) ;;
    Ok (Greeks intrinsic_value (zeros_like S) (zeros_like S) (zeros_like S)
          (zeros_like S) (zeros_like S))
  else
    let sqrt_t := np_sqrt t in
    (* d1 = (np.log(S / K) + (r - q + 0.5 * sigma**2) * t) / (sigma * sqrt_t) *)
    S_K <- np_div S K ;;
    drift <- np_mul (float_add (r - q) (float_mul 0.5 (np_square sigma))) t ;;
    num <- np_add (np_log S_K) drift ;;
    den <- np_mul sigma sqrt_t ;;
    d1 <- np_div num den ;;
    (* d2 = d1 - sigma * sqrt_t *)
    vol <- np_mul sigma sqrt_t ;;
    d2 <- np_sub d1 vol ;;
    let Nd1 := norm_cdf d1 in
    let Nd2 := norm_cdf d2 in
    let Nmd1 := norm_cdf (np_neg d1) in
    let Nmd2 := norm_cdf (np_neg d2) in
    branch <-
      (if (option_Type =? "Call")%string then
         (* price = S * np.exp(-q * t) * Nd1 - K * np.exp(-r * t) * Nd2 *)
         p1 <- np_mul S (np_exp (float_mul (- q) t)) ;;
         p2 <- np_mul p1 Nd1 ;;
         p3 <- np_mul K (np_exp (float_mul (- r) t)) ;;
         p4 <- np_mul p3 Nd2 ;;
         price <- np_sub p2 p4 ;;
         (* delta = np.exp(-q * t) * Nd1 *)
         delta <- np_mul (np_exp (float_mul (- q) t)) Nd1 ;;
         (* theta = (-S * sigma * np.exp(-q * t) * norm.pdf(d1)) / (2 * sqrt_t)
                    - r * K * np.exp(-r * t) * Nd2
                    + q * S * np.exp(-q * t) * Nd1 *)
         t1 <- np_mul (np_neg S) sigma ;;
         t2 <- np_mul t1 (np_exp (float_mul (- q) t)) ;;
         t3 <- np_mul t2 (norm_pdf d1) ;;
         t4 <- np_div t3 (float_mul 2 sqrt_t) ;;
         t5 <- np_mul (float_mul r K) (np_exp (float_mul (- r) t)) ;;
         t6 <- np_mul t5 Nd2 ;;
         t7 <- np_sub t4 t6 ;;
         t8 <- np_mul (float_mul q S) (np_exp (float_mul (- q) t)) ;;
         t9 <- np_mul t8 Nd1 ;;
         theta <- np_add t7 t9 ;;
         (* rho = K * t * np.exp(-r * t) * Nd2 *)
         r1 <- np_mul K t ;;
         r2 <- np_mul r1 (np_exp (float_mul (- r) t)) ;;
         rho <- np_mul r2 Nd2 ;;
         Ok (price, delta, theta, rho)
       else if (option_Type =? "Put")%string then
         (* price = K * np.exp(-r * t) * Nmd2 - S * np.exp(-q * t) * Nmd1 *)
         p1 <- np_mul K (np_exp (float_mul (- r) t)) ;;
         p2 <- np_mul p1 Nmd2 ;;
         p3 <- np_mul S (np_exp (float_mul (- q) t)) ;;
         p4 <- np_mul p3 Nmd1 ;;
         price <- np_sub p2 p4 ;;
         (* delta = np.exp(-q * t) * Nmd1 *)
         delta <- np_mul (np_exp (float_mul (- q) t)) Nmd1 ;;
         (* theta = (-S * sigma * np.exp(-q * t) * norm.pdf(d1)) / (2 * sqrt_t)
                    + r * K * np.exp(-r * t) * Nmd2
                    - q * S * np.exp(-q * t) * Nmd1 *)
         t1 <- np_mul (np_neg S) sigma ;;
         t2 <- np_mul t1 (np_exp (float_mul (- q) t)) ;;
         t3 <- np_mul t2 (norm_pdf d1) ;;
         t4 <- np_div t3 (float_mul 2 sqrt_t) ;;
         t5 <- np_mul (float_mul r K) (np_exp (float_mul (- r) t)) ;;
         t6 <- np_mul t5 Nmd2 ;;
         t7 <- np_add t4 t6 ;;
         t8 <- np_mul (float_mul q S) (np_exp (float_mul (- q) t)) ;;
         t9 <- np_mul t8 Nmd1 ;;
         theta <- np_sub t7 t9 ;;
         (* rho = -K * t * np.exp(-r * t) * Nmd2 *)
         r1 <- np_mul (np_neg K) t ;;
         r2 <- np_mul r1 (np_exp (float_mul (- r) t)) ;;
         rho <- np_mul r2 Nmd2 ;;
         Ok (price, delta, theta, rho)
       else Raise invalid_option_type) ;;
    let '(price, delta, theta, rho) := branch in
    (* gamma = (np.exp(-q * t) * norm.pdf(d1)) / (S * sigma * sqrt_t) *)
    g1 <- np_mul (np_exp (float_mul (- q) t)) (norm_pdf d1) ;;
    g2 <- np_mul S sigma ;;
    g3 <- np_mul g2 sqrt_t ;;
    gamma <- np_div g1 g3 ;;
    (* vega = S * sqrt_t * np.exp(-q * t) * norm.pdf(d1) *)
    v1 <- np_mul S sqrt_t ;;
    v2 <- np_mul v1 (np_exp (float_mul (- q) t)) ;;
    vega <- np_mul v2 (norm_pdf d1) ;;
    Ok (Greeks price delta gamma vega theta rho).

(** *** The formulas on one element

    What [black_scholes] computes at one position of the batch, for
    [0 < t]; written with the operations of the code, in its order. *)

Definition d1 (S K r t sigma q : R) : R :=
  (ln (S / K) + (r - q + 0.5 * sigma ^ 2) * t) / (sigma * sqrt t).

Definition d2 (S K r t sigma q : R) : R :=
  d1 S K r t sigma q - sigma * sqrt t.

Definition call_price (S K r t sigma q : R) : R :=
  S * exp (- q * t) * Norm.cdf (d1 S K r t sigma q)
  - K * exp (- r * t) * Norm.cdf (d2 S K r t sigma q).

Definition put_price (S K r t sigma q : R) : R :=
  K * exp (- r * t) * Norm.cdf (- d2 S K r t sigma q)
  - S * exp (- q * t) * Norm.cdf (- d1 S K r t sigma q).

Definition call_delta (S K r t sigma q : R) : R :=
  exp (- q * t) * Norm.cdf (d1 S K r t sigma q).

Definition put_delta (S K r t sigma q : R) : R :=
  exp (- q * t) * Norm.cdf (- d1 S K r t sigma q).

(** The tuple returned when some element of [t] is at or past expiry. *)
Definition expired_result (S intrinsic_value : ndarray) : greeks :=
  Greeks intrinsic_value (zeros_like S) (zeros_like S) (zeros_like S)
    (zeros_like S) (zeros_like S).

(** Every element is positive. *)
Definition all_positive (a : ndarray) : Prop :=
  Forall (fun x => 0 < x) (ravel a).

(** The six fields of a result, in the order of the tuple. *)
Definition fields (g : greeks) : list ndarray :=
  [price g; delta g; gamma g; vega g; theta g; rho g].

(** *** The other Greeks on one element *)

Definition gamma_formula (S K r t sigma q : R) : R :=
  (exp (- q * t) * Norm.pdf (d1 S K r t sigma q)) / (S * sigma * sqrt t).

Definition vega_formula (S K r t sigma q : R) : R :=
  S * sqrt t * exp (- q * t) * Norm.pdf (d1 S K r t sigma q).

Definition call_theta (S K r t sigma q : R) : R :=
  (- S * sigma * exp (- q * t) * Norm.pdf (d1 S K r t sigma q)) / (2 * sqrt t)
  - r * K * exp (- r * t) * Norm.cdf (d2 S K r t sigma q)
  + q * S * exp (- q * t) * Norm.cdf (d1 S K r t sigma q).

Definition put_theta (S K r t sigma q : R) : R :=
  (- S * sigma * exp (- q * t) * Norm.pdf (d1 S K r t sigma q)) / (2 * sqrt t)
  + r * K * exp (- r * t) * Norm.cdf (- d2 S K r t sigma q)
  - q * S * exp (- q * t) * Norm.cdf (- d1 S K r t sigma q).

Definition call_rho (S K r t sigma q : R) : R :=
  K * t * exp (- r * t) * Norm.cdf (d2 S K r t sigma q).

Definition put_rho (S K r t sigma q : R) : R :=
  - K * t * exp (- r * t) * Norm.cdf (- d2 S K r t sigma q).

(** The elementwise formulas of the six fields, in the order of the tuple. *)
Definition call_formulas : list (R -> R -> R -> R -> R -> R -> R) :=
  [call_price; call_delta; gamma_formula; vega_formula; call_theta; call_rho].

Definition put_formulas : list (R -> R -> R -> R -> R -> R -> R) :=
  [put_price; put_delta; gamma_formula; vega_formula; put_theta; put_rho].

End BlackScholes.

(** ** The simulation pricer [monte_carlo_european] *)

Module MonteCarlo.

(** The state of the legacy global generator of [np.random]: the sequence of
    standard normal variates it yields from its last seeding on, and how many
    of them were drawn since. *)
Record RandomState : Type := {
  rs_stream : nat -> R;
  rs_drawn : nat
}.

(** A two-dimensional array, as the list of its rows. *)
Definition matrix : Type := list (list R).

Definition np_zeros (n m : nat) : matrix := repeat (repeat 0 m) n.

(** [A[:, j]] *)
Definition column (A : matrix) (j : nat) : list R :=
  map (fun row => nth j row 0) A.

Fixpoint set_nth (j : nat) (x : R) (row : list R) : list R :=
  match row, j with
  | [], _ => []
  | _ :: rest, O => x :: rest
  | y :: rest, S j' => y :: set_nth j' x rest
  end.

(** [A[:, j] = x] for a float [x] *)
Definition fill_column (A : matrix) (j : nat) (x : R) : matrix :=
  map (set_nth j x) A.

(** [A[:, j] = v] for a one-dimensional array [v] *)
Definition set_column (A : matrix) (j : nat) (v : list R) : matrix :=
  map (fun p => set_nth j (snd p) (fst p)) (combine A v).

Definition map2 (f : R -> R -> R) (u v : list R) : list R :=
  map (fun p => f (fst p) (snd p)) (combine u v).

Definition Rsum (l : list R) : R := fold_right Rplus 0 l.

(** [np.mean] *)
Definition np_mean (l : list R) : R := Rsum l / INR (length l).

Definition negative_dimensions : exn :=
  ValueError "negative dimensions are not allowed".

Definition invalid_option_type_error : exn :=
  ValueError "Invalid Option Type: Choose 'Put' or 'Call'".

Section Generator.

(** [mt19937_normals seed k]: the [k]-th standard normal variate that the
    generator yields after [np.random.seed(seed)]. *)
Variable mt19937_normals : Z -> nat -> R.

Definition np_random_seed (seed : Z) (g : RandomState) : RandomState :=
  {| rs_stream := mt19937_normals seed; rs_drawn := 0 |}.

Definition next_normal (g : RandomState) : R * RandomState :=
  (rs_stream g (rs_drawn g),
   {| rs_stream := rs_stream g; rs_drawn := S (rs_drawn g) |}).

Fixpoint draw_row (m : nat) (g : RandomState) : list R * RandomState :=
  match m with
  | O => ([], g)
  | S m' =>
      let (z, g1) := next_normal g in
      let (zs, g2) := draw_row m' g1 in
      (z :: zs, g2)
  end.

Fixpoint draw_rows (n m : nat) (g : RandomState) : matrix * RandomState :=
  match n with
  | O => ([], g)
  | S n' =>
      let (row, g1) := draw_row m g in
      let (rows, g2) := draw_rows n' m g1 in
      (row :: rows, g2)
  end.

(** [np.random.standard_normal((n, m))]: the matrix is filled row by row. *)
Definition standard_normal (n m : Z) (g : RandomState)
  : result matrix * RandomState :=
  if ((n <? 0) || (m <? 0))%Z then (Raise negative_dimensions, g)
  else
    let (Zs, g') := draw_rows (Z.to_nat n) (Z.to_nat m) g in
    (Ok Zs, g').

(** The body of the loop [for t in range(1, num_steps)]. *)
Definition gbm_step (r sigma dt : R) (Zs : matrix) (S : matrix) (t : nat)
  : matrix :=
  set_column S t
    (map2 (fun s z => s * exp ((r - 0.5 * sigma ^ 2) * dt + sigma * sqrt dt * z))
       (column S (t - 1)) (column Zs t)).

(** The array [S] of price paths after the loop. *)
Definition gbm_paths (S0 r sigma dt : R) (Zs : matrix) (n m : nat) : matrix :=
  let S := np_zeros n m in
  let S := fill_column S 0 S0 in
  fold_left (gbm_step r sigma dt Zs) (seq 1 (m - 1)) S.

Definition monte_carlo_european (S0 K T r sigma : R) (option_type : string)
    (num_simulations num_steps : Z) (g : RandomState)
  : result R * RandomState :=
  if (num_steps =? 0)%Z then (Raise ZeroDivisionError, g)
  else
    let dt := T / IZR num_steps in
    let g := np_random_seed 42 g in
    match standard_normal num_simulations num_steps g with
    | (Raise e, g) => (Raise e, g)
    | (Ok Zs, g) =>
        let S :=
          gbm_paths S0 r sigma dt Zs
            (Z.to_nat num_simulations) (Z.to_nat num_steps) in
        (* ST = S[:, -1] *)
        let ST := column S (Z.to_nat num_steps - 1) in
        if (option_type =? "Call")%string then
          let payoff := map (fun x => Rmax (x - K) 0) ST in
          (Ok (exp (- r * T) * np_mean payoff), g)
        else if (option_type =? "Put")%string then
          let payoff := map (fun x => Rmax (K - x) 0) ST in
          (Ok (exp (- r * T) * np_mean payoff), g)
        else (Raise invalid_option_type_error, g)
    end.

End Generator.

(** *** The paths, row by row

    Notions in which the properties of the simulated paths are stated. *)

(** [A[i, j]] *)
Definition entry (A : matrix) (i j : nat) : R := nth j (nth i A []) 0.

(** The exponent of one step of the path, for the variate [z]. *)
Definition log_return (r sigma dt z : R) : R :=
  (r - 0.5 * sigma ^ 2) * dt + sigma * sqrt dt * z.

(** What step [t] of the loop does to one row of [S], given the row [zs] of
    variates of the same path. *)
Definition row_step (r sigma dt : R) (zs : list R) (row : list R) (t : nat)
  : list R :=
  set_nth t (nth (t - 1) row 0 * exp (log_return r sigma dt (nth t zs 0))) row.

(** One row of [S] after the loop. *)
Definition row_path (S0 r sigma dt : R) (m : nat) (zs : list R) : list R :=
  fold_left (row_step r sigma dt zs) (seq 1 (m - 1))
    (set_nth 0 S0 (repeat 0 m)).

(** [S0 * exp (sum_{k = 1 .. j} log_return z_k)] *)
Definition path_value (S0 r sigma dt : R) (zs : list R) (j : nat) : R :=
  S0 * exp (Rsum (map (fun k => log_return r sigma dt (nth k zs 0)) (seq 1 j))).

(** The matrix of variates that a call draws: after [np.random.seed(42)],
    row by row. *)
Definition variates (mt19937_normals : Z -> nat -> R) (n m : nat) : matrix :=
  map (fun i => map (fun j => mt19937_normals 42%Z (i * m + j)%nat) (seq 0 m))
    (seq 0 n).

(** The generator after [np.random.seed(42)] and [k] draws. *)
Definition seeded_42 (mt19937_normals : Z -> nat -> R) (k : nat) : RandomState :=
  {| rs_stream := mt19937_normals 42%Z; rs_drawn := k |}.

Definition call_payoff (K x : R) : R := Rmax (x - K) 0.
Definition put_payoff (K x : R) : R := Rmax (K - x) 0.

(** A sample sequence of variates and a sample prior state of the generator,
    for the concrete instances of the theorems. *)
Definition sample_normals (seed : Z) (k : nat) : R :=
  if Nat.even k then 1 else -1.

Definition sample_state : RandomState :=
  {| rs_stream := fun _ => 0; rs_drawn := 7 |}.

(** A second sample sequence: it differs from [sample_normals] exactly at
    the positions that are multiples of three. *)
Definition sample_normals_alt (seed : Z) (k : nat) : R :=
  if (k mod 3 =? 0)%nat then 5 else sample_normals seed k.

End MonteCarlo.

(** ** [monte_carlo_european] with not-a-number

    The same function with the one value kept that real numbers cannot hold:
    [np.sqrt] of a negative number is not-a-number (numpy warns and goes
    on), and so is everything computed from it, and the mean of an empty
    array.  Rounding and overflow aside, no other operation of the function
    leaves the real numbers. *)

Module MonteCarloNaN.
Import MonteCarlo.

Inductive float : Type :=
| Finite (x : R)
| NaN.

(** An elementary operation: not-a-number as soon as an operand is. *)
Definition lift1 (f : R -> R) (a : float) : float :=
  match a with
  | Finite x => Finite (f x)
  | NaN => NaN
  end.

Definition lift2 (f : R -> R -> R) (a b : float) : float :=
  match a, b with
  | Finite x, Finite y => Finite (f x y)
  | _, _ => NaN
  end.

(** [np.sqrt] on a Python float *)
Definition nan_sqrt (x : R) : float :=
  if Rlt_dec x 0 then NaN else Finite (sqrt x).

Definition nan_exp : float -> float := lift1 exp.
Definition nan_add : float -> float -> float := lift2 Rplus.
Definition nan_sub : float -> float -> float := lift2 Rminus.
Definition nan_mul : float -> float -> float := lift2 Rmult.
Definition nan_div : float -> float -> float := lift2 Rdiv.

(** [np.maximum], which propagates not-a-number *)
Definition nan_maximum : float -> float -> float := lift2 Rmax.

(** [np.mean]: not-a-number on an empty array *)
Definition nan_mean (l : list float) : float :=
  match l with
  | [] => NaN
  | _ :: _ => nan_div (fold_right nan_add (Finite 0) l) (Finite (INR (length l)))
  end.

Definition nan_matrix : Type := list (list float).

Definition nan_zeros (n m : nat) : nan_matrix := repeat (repeat (Finite 0) m) n.

Definition nan_column (A : nan_matrix) (j : nat) : list float :=
  map (fun row => nth j row (Finite 0)) A.

Fixpoint nan_set_nth (j : nat) (x : float) (row : list float) : list float :=
  match row, j with
  | [], _ => []
  | _ :: rest, O => x :: rest
  | y :: rest, S j' => y :: nan_set_nth j' x rest
  end.

Definition nan_fill_column (A : nan_matrix) (j : nat) (x : float) : nan_matrix :=
  map (nan_set_nth j x) A.

Definition nan_set_column (A : nan_matrix) (j : nat) (v : list float)
  : nan_matrix :=
  map (fun p => nan_set_nth j (snd p) (fst p)) (combine A v).

(** The body of the loop [for t in range(1, num_steps)]. *)
Definition nan_gbm_step (r sigma dt : R) (Zs : matrix) (S : nan_matrix)
    (t : nat) : nan_matrix :=
  nan_set_column S t
    (map (fun p =>
            nan_mul (fst p)
              (nan_exp
                 (nan_add (Finite ((r - 0.5 * sigma ^ 2) * dt))
                    (nan_mul (nan_mul (Finite sigma) (nan_sqrt dt))
                       (Finite (snd p))))))
       (combine (nan_column S (t - 1)) (column Zs t))).

Definition nan_gbm_paths (S0 r sigma dt : R) (Zs : matrix) (n m : nat)
  : nan_matrix :=
  let S := nan_zeros n m in
  let S := nan_fill_column S 0 (Finite S0) in
  fold_left (nan_gbm_step r sigma dt Zs) (seq 1 (m - 1)) S.

Definition monte_carlo_european_nan (mt19937_normals : Z -> nat -> R)
    (S0 K T r sigma : R) (option_type : string)
    (num_simulations num_steps : Z) (g : RandomState)
  : result float * RandomState :=
  if (num_steps =? 0)%Z then (Raise ZeroDivisionError, g)
  else
    let dt := T / IZR num_steps in
    let g := np_random_seed mt19937_normals 42 g in
    match standard_normal num_simulations num_steps g with
    | (Raise e, g) => (Raise e, g)
    | (Ok Zs, g) =>
        let S :=
          nan_gbm_paths S0 r sigma dt Zs
            (Z.to_nat num_simulations) (Z.to_nat num_steps) in
        let ST := nan_column S (Z.to_nat num_steps - 1) in
        if (option_type =? "Call")%string then
          let payoff :=
            map (fun x => nan_maximum (nan_sub x (Finite K)) (Finite 0)) ST in
          (Ok (nan_mul (Finite (exp (- r * T))) (nan_mean payoff)), g)
        else if (option_type =? "Put")%string then
          let payoff :=
            map (fun x => nan_maximum (nan_sub (Finite K) x) (Finite 0)) ST in
          (Ok (nan_mul (Finite (exp (- r * T))) (nan_mean payoff)), g)
        else (Raise invalid_option_type_error, g)
    end.

(** A real result, as a float. *)
Definition finite_result (x : result R) : result float :=
  match x with
  | Ok p => Ok (Finite p)
  | Raise e => Raise e
  end.

(** A real matrix, as a matrix of floats. *)
Definition finite_matrix (A : matrix) : nan_matrix := map (map Finite) A.

End MonteCarloNaN.

(** ** Facts about the array model *)

Module NumpyFacts.
Import Numpy.

Ltac shape_crush :=
  unfold fits, bjoin, broadcast_shapes4, broadcast_shapes, valid_index in *;
  repeat match goal with
         | s : shape |- _ => destruct s
         | s : option nat |- _ => destruct s
         end;
  repeat match goal with
         | H : context [Nat.eqb ?a ?b] |- _ => destruct (Nat.eqb_spec a b)
         | |- context [Nat.eqb ?a ?b] => destruct (Nat.eqb_spec a b)
         | H : Some _ = Some _ |- _ => injection H as H
         | H : Some _ = None |- _ => discriminate H
         | H : None = Some _ |- _ => discriminate H
         end;
  subst; try congruence; try lia; auto.

Lemma fits_refl (s : shape) : fits s s.
Proof. shape_crush. Qed.

Lemma fits_None (s : shape) : fits None s.
Proof. shape_crush. Qed.

Lemma fits_trans (s1 s2 s3 : shape) : fits s1 s2 -> fits s2 s3 -> fits s1 s3.
Proof. intros; shape_crush. Qed.

Lemma fits_antisym (s1 s2 : shape) : fits s1 s2 -> fits s2 s1 -> s1 = s2.
Proof. intros; shape_crush. Qed.

Lemma fits_bjoin (s1 s2 s : shape) :
  fits s1 s -> fits s2 s -> fits (bjoin s1 s2) s.
Proof. intros; shape_crush. Qed.

Lemma fits_bjoin_l (s1 s2 s : shape) :
  fits s1 s -> fits s2 s -> fits s1 (bjoin s1 s2).
Proof. intros; shape_crush. Qed.

Lemma fits_bjoin_r (s1 s2 s : shape) :
  fits s1 s -> fits s2 s -> fits s2 (bjoin s1 s2).
Proof. intros; shape_crush. Qed.

Lemma fits_broadcast (s1 s2 s : shape) :
  fits s1 s -> fits s2 s -> broadcast_shapes s1 s2 = Some (bjoin s1 s2).
Proof. intros; shape_crush. Qed.

Lemma broadcast_shapes_fits (s1 s2 s : shape) :
  broadcast_shapes s1 s2 = Some s -> fits s1 s /\ fits s2 s.
Proof. intros; split; shape_crush. Qed.

Lemma broadcast_shapes_bjoin (s1 s2 s : shape) :
  broadcast_shapes s1 s2 = Some s -> bjoin s1 s2 = s.
Proof. unfold bjoin. now intros ->. Qed.

Lemma broadcast_shapes4_fits (s1 s2 s3 s4 s : shape) :
  broadcast_shapes4 s1 s2 s3 s4 = Some s ->
  fits s1 s /\ fits s2 s /\ fits s3 s /\ fits s4 s.
Proof.
  unfold broadcast_shapes4.
  destruct (broadcast_shapes s1 s2) as [s12|] eqn:H12; [|discriminate].
  destruct (broadcast_shapes s12 s3) as [s123|] eqn:H123; [|discriminate].
  intros H.
  apply broadcast_shapes_fits in H12, H123, H.
  destruct H12, H123, H.
  repeat split; eauto using fits_trans.
Qed.

(** The broadcast of four shapes is the least shape all four fit. *)
Lemma broadcast_shapes4_least (s1 s2 s3 s4 s s' : shape) :
  broadcast_shapes4 s1 s2 s3 s4 = Some s ->
  fits s1 s' -> fits s2 s' -> fits s3 s' -> fits s4 s' -> fits s s'.
Proof.
  unfold broadcast_shapes4.
  destruct (broadcast_shapes s1 s2) as [s12|] eqn:H12; [|discriminate].
  destruct (broadcast_shapes s12 s3) as [s123|] eqn:H123; [|discriminate].
  intros H F1 F2 F3 F4.
  apply broadcast_shapes_bjoin in H12, H123, H. subst.
  auto using fits_bjoin.
Qed.

Lemma np_shape_tabulate (s : shape) (g : nat -> R) :
  np_shape (tabulate s g) = s.
Proof.
  destruct s as [n|]; simpl; [|reflexivity].
  now rewrite length_map, length_seq.
Qed.

Lemma np_shape_ufunc1 (f : R -> R) (a : ndarray) :
  np_shape (ufunc1 f a) = np_shape a.
Proof. destruct a; simpl; [reflexivity|]. now rewrite length_map. Qed.

Lemma np_shape_zip (f : R -> R -> R) (a b : ndarray) :
  np_shape (zip f a b) = bjoin (np_shape a) (np_shape b).
Proof. apply np_shape_tabulate. Qed.

Lemma nth_tabulate (g : nat -> R) (n i : nat) :
  (i < n)%nat -> nth i (map g (seq 0 n)) 0 = g i.
Proof.
  intros Hi.
  rewrite (nth_indep _ 0 (g 0%nat)) by now rewrite length_map, length_seq.
  rewrite map_nth, seq_nth; auto.
Qed.

Lemma nth_map_lt (f : R -> R) (l : list R) (i : nat) :
  (i < length l)%nat -> nth i (map f l) 0 = f (nth i l 0).
Proof.
  intros Hi.
  rewrite (nth_indep _ 0 (f 0)) by now rewrite length_map.
  apply map_nth.
Qed.

Lemma ufunc2_zip (s : shape) (f : R -> R -> R) (a b : ndarray) :
  fits (np_shape a) s -> fits (np_shape b) s -> ufunc2 f a b = Ok (zip f a b).
Proof.
  intros Ha Hb. unfold ufunc2, zip.
  now rewrite (fits_broadcast _ _ s Ha Hb).
Qed.

Lemma ufunc2_raise (f : R -> R -> R) (a b : ndarray) :
  broadcast_shapes (np_shape a) (np_shape b) = None ->
  ufunc2 f a b = Raise broadcast_error.
Proof. unfold ufunc2. now intros ->. Qed.

Lemma denotes_leaf (s : shape) (a : ndarray) :
  fits (np_shape a) s -> denotes s a (item a).
Proof. now split. Qed.

Lemma denotes_ufunc1 (s : shape) (f : R -> R) (a : ndarray) (g : nat -> R) :
  denotes s a g -> denotes s (ufunc1 f a) (fun i => f (g i)).
Proof.
  intros [Hs Hg]. split; [now rewrite np_shape_ufunc1|].
  intros i Hi. rewrite <- (Hg i Hi). clear Hg.
  destruct a as [x|l]; simpl in *; [reflexivity|].
  rewrite length_map.
  destruct (Nat.eqb_spec (length l) 1) as [E|E].
  - apply nth_map_lt; lia.
  - apply nth_map_lt. shape_crush.
Qed.

Lemma denotes_zip (s : shape) (f : R -> R -> R) (a b : ndarray)
    (ga gb : nat -> R) :
  denotes s a ga -> denotes s b gb ->
  denotes s (zip f a b) (fun i => f (ga i) (gb i)).
Proof.
  intros [Ha Hga] [Hb Hgb].
  split; [rewrite np_shape_zip; now apply fits_bjoin|].
  intros i Hi. rewrite <- (Hga i Hi), <- (Hgb i Hi). clear Hga Hgb.
  unfold zip.
  destruct a as [x|la], b as [y|lb]; simpl in *.
  - reflexivity.
  - unfold bjoin; simpl. rewrite length_map, length_seq.
    destruct (Nat.eqb_spec (length lb) 1) as [E|E];
      (rewrite nth_tabulate; [reflexivity | shape_crush]).
  - unfold bjoin; simpl. rewrite length_map, length_seq.
    destruct (Nat.eqb_spec (length la) 1) as [E|E];
      (rewrite nth_tabulate; [reflexivity | shape_crush]).
  - assert (Hj : fits (bjoin (Some (length la)) (Some (length lb))) s)
      by now apply fits_bjoin.
    remember (bjoin (Some (length la)) (Some (length lb))) as sj eqn:Ej.
    destruct sj as [n|]; [|unfold bjoin in Ej; shape_crush].
    simpl. rewrite length_map, length_seq.
    destruct (Nat.eqb_spec n 1) as [E|E].
    + subst n. simpl.
      assert (length la = 1%nat /\ length lb = 1%nat) as [Ea Eb]
        by (unfold bjoin in Ej; clear Hi Hj; split; shape_crush).
      now rewrite Ea, Eb.
    + assert (Hin : (i < n)%nat) by (clear Ej; shape_crush).
      now rewrite nth_tabulate by exact Hin.
Qed.

(** Broadcasting on concrete arrays. *)

Example np_sub_stretches_scalar :
  np_sub (Vector [3; 5]) (Scalar 1) = Ok (Vector [3 - 1; 5 - 1]).
Proof. reflexivity. Qed.

Example np_mul_stretches_length_one :
  np_mul (Vector [2]) (Vector [1; 2; 3]) = Ok (Vector [2 * 1; 2 * 2; 2 * 3]).
Proof. reflexivity. Qed.

Example np_add_shape_mismatch :
  np_add (Vector [1; 2; 3]) (Vector [1; 2]) = Raise broadcast_error.
Proof. reflexivity. Qed.

End NumpyFacts.

(** ** Facts about [black_scholes] *)

Module BlackScholesFacts.
Import Numpy NumpyFacts BlackScholes.

Lemma any_le_false (a : ndarray) (c : R) :
  any_le a c = false <-> Forall (fun x => c < x) (ravel a).
Proof.
  unfold any_le. induction (ravel a) as [|x l IH]; simpl.
  - split; auto.
  - rewrite orb_false_iff, IH. unfold Rle_bool.
    split.
    + intros [Hx Hl]. constructor; [|assumption].
      destruct (Rle_dec x c); [discriminate | lra].
    + intros H. inversion H; subst. split; [|assumption].
      destruct (Rle_dec x c); [lra | reflexivity].
Qed.

Lemma any_le_true (a : ndarray) (c : R) :
  any_le a c = true <-> Exists (fun x => x <= c) (ravel a).
Proof.
  unfold any_le. rewrite existsb_exists, Exists_exists. unfold Rle_bool.
  split; intros (x & Hin & Hx); exists x; split; auto;
    destruct (Rle_dec x c); auto; discriminate.
Qed.

Lemma all_positive_any_le (t : ndarray) : all_positive t -> any_le t 0 = false.
Proof. intros H. now apply any_le_false. Qed.

(** Symbolic execution of the body on operands that broadcast to [s]. *)

Lemma fits_zip (s : shape) (f : R -> R -> R) (a b : ndarray) :
  fits (np_shape a) s -> fits (np_shape b) s -> fits (np_shape (zip f a b)) s.
Proof. intros. rewrite np_shape_zip. now apply fits_bjoin. Qed.

Lemma fits_ufunc1 (s : shape) (f : R -> R) (a : ndarray) :
  fits (np_shape a) s -> fits (np_shape (ufunc1 f a)) s.
Proof. now rewrite np_shape_ufunc1. Qed.

Lemma below_zip_l (s x : shape) (f : R -> R -> R) (a b : ndarray) :
  fits (np_shape a) s -> fits (np_shape b) s ->
  fits x (np_shape a) -> fits x (np_shape (zip f a b)).
Proof.
  intros Ha Hb Hx. rewrite np_shape_zip.
  eapply fits_trans; [exact Hx|]. now apply (fits_bjoin_l _ _ s).
Qed.

Lemma below_zip_r (s x : shape) (f : R -> R -> R) (a b : ndarray) :
  fits (np_shape a) s -> fits (np_shape b) s ->
  fits x (np_shape b) -> fits x (np_shape (zip f a b)).
Proof.
  intros Ha Hb Hx. rewrite np_shape_zip.
  eapply fits_trans; [exact Hx|]. now apply (fits_bjoin_r _ _ s).
Qed.

Lemma below_ufunc1 (x : shape) (f : R -> R) (a : ndarray) :
  fits x (np_shape a) -> fits x (np_shape (ufunc1 f a)).
Proof. now rewrite np_shape_ufunc1. Qed.

Lemma denotes_ext (s : shape) (a : ndarray) (g g' : nat -> R) :
  denotes s a g -> (forall i, g i = g' i) -> denotes s a g'.
Proof. intros [Hs Hg] E. split; [assumption|]. intros i Hi. now rewrite Hg. Qed.

Ltac unfold_ops :=
  unfold np_add, np_sub, np_mul, np_div, np_sqrt, np_log, np_exp, np_neg,
    np_square, norm_cdf, norm_pdf, float_add, float_mul, float_maximum,
    zeros_like in *.

(** [fits (np_shape e) s] for an expression [e] over the operands. *)
Ltac solve_fits :=
  repeat first [ assumption | apply fits_zip | apply fits_ufunc1 ].

(** One array operation of the body: it succeeds, with result [zip f a b]. *)
Ltac run s :=
  repeat (rewrite (ufunc2_zip s) by solve_fits; cbn [bind]).

(** [denotes s e ?g] for an expression [e] over the operands. *)
Ltac solve_denotes :=
  repeat first [ apply denotes_zip | apply denotes_ufunc1
               | apply denotes_leaf; assumption ].

(** [fits x (np_shape e)] for an operand of shape [x] that occurs in [e]. *)
Ltac solve_below s :=
  first [ apply fits_refl
        | apply below_ufunc1; solve_below s
        | apply (below_zip_l s); [solve_fits | solve_fits | solve_below s]
        | apply (below_zip_r s); [solve_fits | solve_fits | solve_below s] ].

(** The shape of an expression in which all four operands occur. *)
Ltac solve_shape s H4 :=
  apply fits_antisym;
  [ solve_fits
  | apply (broadcast_shapes4_least _ _ _ _ _ _ H4); solve_below s ].

Section Batch.

Variables (S K : ndarray) (r : R) (t sigma : ndarray) (q : R) (s : shape).

Hypothesis Hbroadcast :
  broadcast_shapes4 (np_shape S) (np_shape K) (np_shape t) (np_shape sigma)
  = Some s.

Hypothesis Hlive : any_le t 0 = false.

Let at4 (f : R -> R -> R -> R -> R -> R -> R) (i : nat) : R :=
  f (item S i) (item K i) r (item t i) (item sigma i) q.

Lemma black_scholes_call_batch :
  exists g, black_scholes S K r t sigma "Call" q = Ok g
    /\ Forall (fun a => np_shape a = s) (fields g)
    /\ denotes s (price g) (at4 call_price)
    /\ denotes s (delta g) (at4 call_delta).
Proof.
  destruct (broadcast_shapes4_fits _ _ _ _ _ Hbroadcast) as (FS & FK & Ft & Fs).
  unfold black_scholes. rewrite Hlive.
  replace ("Call" =? "Call")%string with true by reflexivity.
  unfold_ops. cbv zeta. run s.
  eexists. split; [reflexivity|].
  split; [|split].
  - unfold fields; cbn [price delta gamma vega theta rho].
    repeat constructor; solve_shape s Hbroadcast.
  - cbn [price]. eapply denotes_ext; [solve_denotes|]. reflexivity.
  - cbn [delta]. eapply denotes_ext; [solve_denotes|]. reflexivity.
Qed.

Lemma black_scholes_put_batch :
  exists g, black_scholes S K r t sigma "Put" q = Ok g
    /\ Forall (fun a => np_shape a = s) (fields g)
    /\ denotes s (price g) (at4 put_price)
    /\ denotes s (delta g) (at4 put_delta).
Proof.
  destruct (broadcast_shapes4_fits _ _ _ _ _ Hbroadcast) as (FS & FK & Ft & Fs).
  unfold black_scholes. rewrite Hlive.
  replace ("Put" =? "Call")%string with false by reflexivity.
  replace ("Put" =? "Put")%string with true by reflexivity.
  unfold_ops. cbv zeta. run s.
  eexists. split; [reflexivity|].
  split; [|split].
  - unfold fields; cbn [price delta gamma vega theta rho].
    repeat constructor; solve_shape s Hbroadcast.
  - cbn [price]. eapply denotes_ext; [solve_denotes|]. reflexivity.
  - cbn [delta]. eapply denotes_ext; [solve_denotes|]. reflexivity.
Qed.

(** Before expiry an unknown option type is rejected. *)
Lemma black_scholes_invalid_batch (option_Type : string) :
  option_Type <> "Call" -> option_Type <> "Put" ->
  black_scholes S K r t sigma option_Type q = Raise invalid_option_type.
Proof.
  intros HC HP.
  destruct (broadcast_shapes4_fits _ _ _ _ _ Hbroadcast) as (FS & FK & Ft & Fs).
  unfold black_scholes. rewrite Hlive.
  apply String.eqb_neq in HC, HP. rewrite HC, HP.
  unfold_ops. cbv zeta. run s. reflexivity.
Qed.

End Batch.

(** The branch taken when some element of [t] is at or past expiry. *)

Lemma black_scholes_expired_call (S K : ndarray) (r : R) (t sigma : ndarray)
    (q : R) (s : shape) :
  any_le t 0 = true ->
  broadcast_shapes (np_shape S) (np_shape K) = Some s ->
  black_scholes S K r t sigma "Call" q
  = Ok (expired_result S (float_maximum 0 (zip Rminus S K))).
Proof.
  intros Ht Hs. apply broadcast_shapes_fits in Hs as [FS FK].
  unfold black_scholes. rewrite Ht.
  replace ("Call" =? "Call")%string with true by reflexivity.
  unfold np_sub. rewrite (ufunc2_zip s) by assumption. reflexivity.
Qed.

(** Past expiry every option type other than ["Call"] is priced as a put. *)
Lemma black_scholes_expired_other (S K : ndarray) (r : R) (t sigma : ndarray)
    (option_Type : string) (q : R) (s : shape) :
  any_le t 0 = true ->
  broadcast_shapes (np_shape S) (np_shape K) = Some s ->
  option_Type <> "Call" ->
  black_scholes S K r t sigma option_Type q
  = Ok (expired_result S (float_maximum 0 (zip Rminus K S))).
Proof.
  intros Ht Hs HC. apply broadcast_shapes_fits in Hs as [FS FK].
  unfold black_scholes. rewrite Ht.
  apply String.eqb_neq in HC. rewrite HC.
  unfold np_sub. rewrite (ufunc2_zip s) by assumption. reflexivity.
Qed.

Lemma ravel_zeros_like (a : ndarray) :
  Forall (fun x => x = 0) (ravel (zeros_like a)).
Proof.
  destruct a as [x|l]; simpl; [now repeat constructor|].
  induction l; simpl; constructor; auto.
Qed.

Lemma np_shape_zeros_like (a : ndarray) : np_shape (zeros_like a) = np_shape a.
Proof. apply np_shape_ufunc1. Qed.

Lemma Rmax_0_sub (x y : R) : y <= x -> Rmax 0 (x - y) = x - y.
Proof. intros H. apply Rmax_right. lra. Qed.

Lemma item_in_ravel (s : shape) (a : ndarray) (i : nat) :
  fits (np_shape a) s -> valid_index s i -> In (item a i) (ravel a).
Proof.
  intros Hs Hi. destruct a as [x|l]; simpl in *; [now left|].
  destruct (Nat.eqb_spec (length l) 1) as [E|E].
  - apply nth_In. lia.
  - apply nth_In. shape_crush.
Qed.

Lemma all_positive_item (s : shape) (a : ndarray) (i : nat) :
  all_positive a -> fits (np_shape a) s -> valid_index s i -> 0 < item a i.
Proof.
  intros Ha Hs Hi. unfold all_positive in Ha. rewrite Forall_forall in Ha.
  apply Ha. now apply (item_in_ravel s).
Qed.

(** What the code computes for the two deltas: they add up to [exp (- q t)].
    (For the Black-Scholes model it is their difference that does.) *)
Lemma delta_call_plus_put (S K : ndarray) (r : R) (t sigma : ndarray) (q : R)
    (s : shape) :
  broadcast_shapes4 (np_shape S) (np_shape K) (np_shape t) (np_shape sigma)
  = Some s ->
  all_positive S -> all_positive K -> all_positive t -> all_positive sigma ->
  exists gc gp,
    black_scholes S K r t sigma "Call" q = Ok gc
    /\ black_scholes S K r t sigma "Put" q = Ok gp
    /\ forall i, valid_index s i ->
         item (delta gc) i + item (delta gp) i = exp (- q * item t i).
Proof.
  intros Hs _ _ Ht _. apply all_positive_any_le in Ht.
  destruct (black_scholes_call_batch S K r t sigma q s Hs Ht)
    as (gc & Ec & _ & _ & [_ Dc]).
  destruct (black_scholes_put_batch S K r t sigma q s Hs Ht)
    as (gp & Ep & _ & _ & [_ Dp]).
  exists gc, gp. repeat split; try assumption.
  intros i Hi. rewrite (Dc i Hi), (Dp i Hi).
  unfold call_delta, put_delta. rewrite Norm.cdf_opp. ring.
Qed.

(** The shapes of the fields past expiry. *)
Lemma expired_batch_intrinsic_value_aux (S K : ndarray) (r : R)
    (t sigma : ndarray) (option_Type : string) (q : R) (s : shape) :
  Exists (fun x => x <= 0) (ravel t) ->
  broadcast_shapes (np_shape S) (np_shape K) = Some s ->
  option_Type = "Call" \/ option_Type = "Put" ->
  exists g,
    black_scholes S K r t sigma option_Type q = Ok g
    /\ np_shape (price g) = s
    /\ Forall (fun a => np_shape a = np_shape S)
         [delta g; gamma g; vega g; theta g; rho g].
Proof.
  intros Ht Hs Hty. apply any_le_true in Ht.
  pose proof (broadcast_shapes_fits _ _ _ Hs) as [FS FK].
  assert (HKS : bjoin (np_shape K) (np_shape S) = s).
  { apply fits_antisym.
    - now apply fits_bjoin.
    - rewrite <- (broadcast_shapes_bjoin _ _ _ Hs).
      apply fits_bjoin; [now apply (fits_bjoin_r _ _ s)
                        | now apply (fits_bjoin_l _ _ s)]. }
  destruct Hty as [-> | ->].
  - exists (expired_result S (float_maximum 0 (zip Rminus S K))).
    split; [now apply (black_scholes_expired_call _ _ _ _ _ _ s)|].
    cbn [expired_result price delta gamma vega theta rho].
    split.
    + unfold float_maximum. rewrite np_shape_ufunc1, np_shape_zip.
      now apply broadcast_shapes_bjoin.
    + repeat constructor; apply np_shape_zeros_like.
  - exists (expired_result S (float_maximum 0 (zip Rminus K S))).
    assert (HP : "Put" <> "Call") by discriminate.
    split; [now apply (black_scholes_expired_other _ _ _ _ _ _ _ s)|].
    cbn [expired_result price delta gamma vega theta rho].
    split.
    + unfold float_maximum. now rewrite np_shape_ufunc1, np_shape_zip.
    + repeat constructor; apply np_shape_zeros_like.
Qed.

(** C1: when some element of [t] is at or below zero, the whole batch gets
    the intrinsic value, [max(0, S - K)] for a call and [max(0, K - S)] for a
    put, as its price and zero for each of the five Greeks; the result does
    not depend on [r], [sigma] and [q], which only the formulas read. *)
Theorem expired_batch_intrinsic_value (S K : ndarray) (r : R)
    (t sigma : ndarray) (option_Type : string) (q : R) (s : shape) :
  Exists (fun x => x <= 0) (ravel t) ->
  broadcast_shapes (np_shape S) (np_shape K) = Some s ->
  option_Type = "Call" \/ option_Type = "Put" ->
  exists g,
    black_scholes S K r t sigma option_Type q = Ok g
    /\ np_shape (price g) = s
    /\ (forall i, valid_index s i ->
          item (price g) i =
          if (option_Type =? "Call")%string
          then Rmax 0 (item S i - item K i)
          else Rmax 0 (item K i - item S i))
    /\ Forall (fun a => np_shape a = np_shape S
                        /\ Forall (fun x => x = 0) (ravel a))
         [delta g; gamma g; vega g; theta g; rho g]
    /\ forall r' sigma' q',
         black_scholes S K r' t sigma' option_Type q' = Ok g.
Proof.
  intros Ht Hs Hty. apply any_le_true in Ht.
  pose proof (broadcast_shapes_fits _ _ _ Hs) as [FS FK].
  assert (Hz : Forall (fun a => np_shape a = np_shape S
                                /\ Forall (fun x => x = 0) (ravel a))
                 [zeros_like S; zeros_like S; zeros_like S; zeros_like S;
                  zeros_like S])
    by (repeat constructor;
        solve [apply np_shape_zeros_like | apply ravel_zeros_like]).
  destruct Hty as [-> | ->].
  - exists (expired_result S (float_maximum 0 (zip Rminus S K))).
    split; [now apply (black_scholes_expired_call _ _ _ _ _ _ s)|].
    cbn [expired_result price delta gamma vega theta rho].
    split; [|split; [|split]].
    + unfold float_maximum. rewrite np_shape_ufunc1, np_shape_zip.
      now apply broadcast_shapes_bjoin.
    + intros i Hi. unfold float_maximum.
      assert (D : denotes s (ufunc1 (fun x => Rmax 0 x) (zip Rminus S K))
                    (fun i => Rmax 0 (item S i - item K i)))
        by solve_denotes.
      exact (proj2 D i Hi).
    + exact Hz.
    + intros r' sigma' q'. now apply (black_scholes_expired_call _ _ _ _ _ _ s).
  - exists (expired_result S (float_maximum 0 (zip Rminus K S))).
    assert (HP : "Put" <> "Call") by discriminate.
    split; [now apply (black_scholes_expired_other _ _ _ _ _ _ _ s)|].
    cbn [expired_result price delta gamma vega theta rho].
    split; [|split; [|split]].
    + unfold float_maximum. rewrite np_shape_ufunc1, np_shape_zip.
      apply broadcast_shapes_bjoin.
      rewrite (fits_broadcast _ _ s FK FS). f_equal.
      apply fits_antisym.
      * now apply fits_bjoin.
      * rewrite <- (broadcast_shapes_bjoin _ _ _ Hs).
        apply fits_bjoin; [now apply (fits_bjoin_r _ _ s)
                          | now apply (fits_bjoin_l _ _ s)].
    + intros i Hi. unfold float_maximum.
      assert (D : denotes s (ufunc1 (fun x => Rmax 0 x) (zip Rminus K S))
                    (fun i => Rmax 0 (item K i - item S i)))
        by solve_denotes.
      exact (proj2 D i Hi).
    + exact Hz.
    + intros r' sigma' q'.
      now apply (black_scholes_expired_other _ _ _ _ _ _ _ s).
Qed.

Lemma expired_batch_intrinsic_value_witness :
  Exists (fun x => x <= 0) (ravel (Vector [1; 0; 2]))
  /\ broadcast_shapes (np_shape (Vector [100; 105; 120])) (np_shape (Scalar 110))
     = Some (Some 3%nat)
  /\ exists g,
       black_scholes (Vector [100; 105; 120]) (Scalar 110) 0.05
         (Vector [1; 0; 2]) (Scalar 0.2) "Call" 0.02 = Ok g
       /\ np_shape (price g) = Some 3%nat
       /\ item (price g) 2 = Rmax 0 (120 - 110)
       /\ ravel (delta g) = [0; 0; 0].
Proof.
  assert (Ht : Exists (fun x => x <= 0) (ravel (Vector [1; 0; 2])))
    by (simpl; apply Exists_cons_tl, Exists_cons_hd; lra).
  split; [exact Ht|]. split; [reflexivity|].
  destruct (expired_batch_intrinsic_value (Vector [100; 105; 120]) (Scalar 110)
              0.05 (Vector [1; 0; 2]) (Scalar 0.2) "Call" 0.02 (Some 3%nat)
              Ht eq_refl (or_introl eq_refl))
    as (g & Eg & Hshape & Hprice & Hgreeks & _).
  exists g. split; [exact Eg|]. split; [exact Hshape|].
  split.
  - apply (Hprice 2%nat). simpl. lia.
  - inversion Hgreeks as [|? ? [Hsh Hz] _]; subst.
    destruct (delta g) as [x|l]; [discriminate Hsh|].
    simpl in *. injection Hsh as Hlen.
    destruct l as [|a [|b [|c [|d l]]]]; try discriminate Hlen.
    inversion Hz as [|? ? Ha Hz1]; subst.
    inversion Hz1 as [|? ? Hb Hz2]; subst.
    inversion Hz2 as [|? ? Hc _]; subst.
    reflexivity.
Defined.

(** C2 (where the code departs from it): with an element of [t] at expiry,
    an option type that is neither ["Call"] nor ["Put"] raises nothing; the
    batch is priced as a put.  Here [black_scholes(100, 110, 0.05, 0, 0.2,
    "Straddle")] returns [(10, 0, 0, 0, 0, 0)]. *)
Theorem expired_unknown_type_priced_as_put :
  black_scholes (Scalar 100) (Scalar 110) 0.05 (Scalar 0) (Scalar 0.2)
    "Straddle" 0
  = Ok (Greeks (Scalar 10) (Scalar 0) (Scalar 0) (Scalar 0) (Scalar 0)
          (Scalar 0)).
Proof.
  rewrite (black_scholes_expired_other _ _ _ _ _ _ _ None).
  - unfold expired_result, float_maximum, zeros_like, zip.
    cbn [ufunc1 tabulate bjoin np_shape broadcast_shapes item].
    rewrite Rmax_0_sub by lra.
    replace (110 - 100) with 10 by lra. reflexivity.
  - unfold any_le, Rle_bool. cbn [ravel existsb].
    destruct (Rle_dec 0 0); [reflexivity | lra].
  - reflexivity.
  - discriminate.
Qed.

(** The sibling path: before expiry the same option type is rejected. *)
Example live_unknown_type_raises :
  black_scholes (Scalar 100) (Scalar 110) 0.05 (Scalar 1) (Scalar 0.2)
    "Straddle" 0
  = Raise invalid_option_type.
Proof.
  apply (black_scholes_invalid_batch _ _ _ _ _ _ None).
  - reflexivity.
  - apply all_positive_any_le. repeat constructor. lra.
  - discriminate.
  - discriminate.
Qed.

(** C4 (where the code departs from it): the delta of a put is returned as
    [exp (- q t) * N(- d1)], without the sign of the Black-Scholes put delta,
    so the two deltas differ by [exp (- q t) * (2 N(d1) - 1)].  At
    [S = K = 100], [r = 0], [t = 1], [sigma = 1], [q = 0.5], where [d1 = 0],
    both deltas are [exp (- 0.5) / 2]: their difference is [0], not
    [exp (- 0.5)]. *)
Theorem call_delta_minus_put_delta_at_the_money :
  exists gc gp,
    black_scholes (Scalar 100) (Scalar 100) 0 (Scalar 1) (Scalar 1) "Call" 0.5
    = Ok gc
    /\ black_scholes (Scalar 100) (Scalar 100) 0 (Scalar 1) (Scalar 1) "Put" 0.5
       = Ok gp
    /\ delta gc = Scalar (exp (- (0.5) * 1) * (1 / 2))
    /\ delta gp = Scalar (exp (- (0.5) * 1) * (1 / 2))
    /\ item (delta gc) 0 - item (delta gp) 0 = 0
    /\ item (delta gc) 0 - item (delta gp) 0 <> exp (- (0.5) * 1).
Proof.
  assert (Hs : broadcast_shapes4 (np_shape (Scalar 100)) (np_shape (Scalar 100))
                 (np_shape (Scalar 1)) (np_shape (Scalar 1)) = Some None)
    by reflexivity.
  assert (Ht : any_le (Scalar 1) 0 = false)
    by (apply all_positive_any_le; repeat constructor; lra).
  assert (Hd1 : d1 100 100 0 1 1 0.5 = 0).
  { unfold d1. replace (100 / 100) with 1 by lra.
    rewrite ln_1, sqrt_1. lra. }
  destruct (black_scholes_call_batch _ _ 0 _ _ 0.5 _ Hs Ht)
    as (gc & Ec & Sc & _ & [_ Dc]).
  destruct (black_scholes_put_batch _ _ 0 _ _ 0.5 _ Hs Ht)
    as (gp & Ep & Sp & _ & [_ Dp]).
  specialize (Dc 0%nat I). specialize (Dp 0%nat I).
  cbn [item] in Dc, Dp.
  unfold call_delta in Dc. unfold put_delta in Dp.
  rewrite Hd1 in Dc, Dp. rewrite Ropp_0 in Dp. rewrite Norm.cdf_0 in Dc, Dp.
  assert (Gc : delta gc = Scalar (exp (- (0.5) * 1) * (1 / 2))).
  { unfold fields in Sc. inversion Sc as [|? ? _ Sc1]; subst.
    inversion Sc1 as [|? ? Hsh _]; subst.
    destruct (delta gc); [|discriminate Hsh]. now rewrite <- Dc. }
  assert (Gp : delta gp = Scalar (exp (- (0.5) * 1) * (1 / 2))).
  { unfold fields in Sp. inversion Sp as [|? ? _ Sp1]; subst.
    inversion Sp1 as [|? ? Hsh _]; subst.
    destruct (delta gp); [|discriminate Hsh]. now rewrite <- Dp. }
  exists gc, gp. repeat split; try assumption.
  - rewrite Gc, Gp. cbn [item]. lra.
  - rewrite Gc, Gp. cbn [item].
    pose proof (exp_pos (- (0.5) * 1)). lra.
Qed.

(** C5: put-call parity.  For positive [S] and [K] (the invariant of the
    inputs), every [t] and every [sigma] positive, and operands that
    broadcast together: the logarithm and the division of [d1] are taken
    inside their domains, and the call price minus the put price is
    [S * exp (- q t) - K * exp (- r t)] at every position of the batch. *)
Theorem put_call_parity (S K : ndarray) (r : R) (t sigma : ndarray) (q : R)
    (s : shape) :
  broadcast_shapes4 (np_shape S) (np_shape K) (np_shape t) (np_shape sigma)
  = Some s ->
  all_positive S ->
  all_positive K ->
  all_positive t ->
  all_positive sigma ->
  exists gc gp,
    black_scholes S K r t sigma "Call" q = Ok gc
    /\ black_scholes S K r t sigma "Put" q = Ok gp
    /\ np_shape (price gc) = s
    /\ np_shape (price gp) = s
    /\ forall i, valid_index s i ->
         0 < item S i / item K i
         /\ 0 < item sigma i * sqrt (item t i)
         /\ item (price gc) i - item (price gp) i
            = item S i * exp (- q * item t i) - item K i * exp (- r * item t i).
Proof.
  intros Hs HS HK Ht Hsig.
  destruct (broadcast_shapes4_fits _ _ _ _ _ Hs) as (FS & FK & Ft & Fsig).
  pose proof (all_positive_any_le _ Ht) as Hlive.
  destruct (black_scholes_call_batch S K r t sigma q s Hs Hlive)
    as (gc & Ec & Sc & [_ Pc] & _).
  destruct (black_scholes_put_batch S K r t sigma q s Hs Hlive)
    as (gp & Ep & Sp & [_ Pp] & _).
  exists gc, gp.
  split; [exact Ec|]. split; [exact Ep|].
  split; [now inversion Sc|]. split; [now inversion Sp|].
  intros i Hi.
  pose proof (all_positive_item s S i HS FS Hi) as HSi.
  pose proof (all_positive_item s K i HK FK Hi) as HKi.
  pose proof (all_positive_item s t i Ht Ft Hi) as Hti.
  pose proof (all_positive_item s sigma i Hsig Fsig Hi) as Hsi.
  split; [now apply Rdiv_lt_0_compat|].
  split; [apply Rmult_lt_0_compat; [exact Hsi | now apply sqrt_lt_R0]|].
  rewrite (Pc i Hi), (Pp i Hi).
  unfold call_price, put_price. rewrite !Norm.cdf_opp. ring.
Qed.

Lemma put_call_parity_witness :
  exists gc gp,
    black_scholes (Vector [100; 105; 110]) (Scalar 110) 0.05 (Scalar 1)
      (Scalar 0.2) "Call" 0.02 = Ok gc
    /\ black_scholes (Vector [100; 105; 110]) (Scalar 110) 0.05 (Scalar 1)
         (Scalar 0.2) "Put" 0.02 = Ok gp
    /\ item (price gc) 1 - item (price gp) 1
       = 105 * exp (- (0.02) * 1) - 110 * exp (- (0.05) * 1).
Proof.
  destruct (put_call_parity (Vector [100; 105; 110]) (Scalar 110) 0.05
              (Scalar 1) (Scalar 0.2) 0.02 (Some 3%nat) eq_refl)
    as (gc & gp & Ec & Ep & _ & _ & H).
  - repeat constructor; lra.
  - repeat constructor; lra.
  - repeat constructor; lra.
  - repeat constructor; lra.
  - exists gc, gp. split; [exact Ec|]. split; [exact Ep|].
    apply (H 1%nat). simpl. lia.
Defined.

(** C7, counterexample: for a scalar [S], two strikes and [t = 0] the price
    has the broadcast shape [(2,)] and the delta the shape [()] of [S]. *)
Lemma expired_greeks_shape_counterexample :
  exists g,
    black_scholes (Scalar 100) (Vector [90; 110]) 0.05 (Scalar 0) (Scalar 0.2)
      "Call" 0 = Ok g
    /\ broadcast_shapes4 (np_shape (Scalar 100)) (np_shape (Vector [90; 110]))
         (np_shape (Scalar 0)) (np_shape (Scalar 0.2)) = Some (Some 2%nat)
    /\ np_shape (price g) = Some 2%nat
    /\ np_shape (delta g) <> Some 2%nat.
Proof.
  eexists. split.
  - apply (black_scholes_expired_call _ _ _ _ _ _ (Some 2%nat)).
    + unfold any_le, Rle_bool. cbn [ravel existsb].
      destruct (Rle_dec 0 0); [reflexivity | lra].
    + reflexivity.
  - split; [reflexivity|]. split; [reflexivity|]. discriminate.
Qed.

(** C7, as the code has it: for operands that broadcast together and a
    known option type, all six fields have the broadcast shape of [S], [K],
    [t] and [sigma] when every [t] is positive; when some [t] is at or below
    zero the price has the broadcast shape of [S] and [K] and each Greek the
    shape of [S]. *)
Theorem fields_shape (S K : ndarray) (r : R) (t sigma : ndarray)
    (option_Type : string) (q : R) (s : shape) :
  broadcast_shapes4 (np_shape S) (np_shape K) (np_shape t) (np_shape sigma)
  = Some s ->
  option_Type = "Call" \/ option_Type = "Put" ->
  exists g,
    black_scholes S K r t sigma option_Type q = Ok g
    /\ if any_le t 0
       then np_shape (price g) = bjoin (np_shape S) (np_shape K)
            /\ Forall (fun a => np_shape a = np_shape S)
                 [delta g; gamma g; vega g; theta g; rho g]
       else Forall (fun a => np_shape a = s) (fields g).
Proof.
  intros Hs Hty.
  destruct (broadcast_shapes4_fits _ _ _ _ _ Hs) as (FS & FK & _ & _).
  pose proof (fits_broadcast _ _ s FS FK) as HSK.
  destruct (any_le t 0) eqn:Ht.
  - assert (Hexp : Exists (fun x => x <= 0) (ravel t)) by now apply any_le_true.
    destruct (expired_batch_intrinsic_value_aux S K r t sigma option_Type q _
                Hexp HSK Hty) as (g & Eg & Hp & Hg).
    exists g. repeat split; assumption.
  - destruct Hty as [-> | ->].
    + destruct (black_scholes_call_batch S K r t sigma q s Hs Ht)
        as (g & Eg & Sg & _).
      now exists g.
    + destruct (black_scholes_put_batch S K r t sigma q s Hs Ht)
        as (g & Eg & Sg & _).
      now exists g.
Qed.

Lemma fields_shape_witness :
  exists g,
    black_scholes (Scalar 100) (Vector [90; 110]) 0.05 (Scalar 0) (Scalar 0.2)
      "Call" 0 = Ok g
    /\ np_shape (price g) = Some 2%nat
    /\ np_shape (delta g) = None.
Proof.
  destruct (fields_shape (Scalar 100) (Vector [90; 110]) 0.05 (Scalar 0)
              (Scalar 0.2) "Call" 0 (Some 2%nat) eq_refl (or_introl eq_refl))
    as (g & Eg & H).
  assert (Ht : any_le (Scalar 0) 0 = true).
  { unfold any_le, Rle_bool. cbn [ravel existsb].
    destruct (Rle_dec 0 0); [reflexivity | lra]. }
  rewrite Ht in H. destruct H as [Hp Hg].
  exists g. split; [exact Eg|]. split; [exact Hp|].
  inversion Hg as [|? ? Hd _]. exact Hd.
Defined.

End BlackScholesFacts.

(** ** Facts about [monte_carlo_european] *)

Module MonteCarloFacts.
Import MonteCarlo.

(** *** Rows *)

Lemma length_set_nth (j : nat) (x : R) (row : list R) :
  length (set_nth j x row) = length row.
Proof.
  revert j. induction row as [|y row IH]; intros [|j]; simpl; auto.
Qed.

Lemma nth_set_nth_eq (j : nat) (x : R) (row : list R) :
  (j < length row)%nat -> nth j (set_nth j x row) 0 = x.
Proof.
  revert j. induction row as [|y row IH]; intros [|j] H; simpl in *;
    try lia; auto.
  apply IH. lia.
Qed.

Lemma nth_set_nth_neq (i j : nat) (x : R) (row : list R) :
  i <> j -> nth i (set_nth j x row) 0 = nth i row 0.
Proof.
  revert i j. induction row as [|y row IH]; intros [|i] [|j] H; simpl;
    try reflexivity; try lia.
  apply IH. lia.
Qed.

(** *** The generator *)

Lemma draw_row_spec (m : nat) (g : RandomState) :
  draw_row m g
  = (map (fun j => rs_stream g (rs_drawn g + j)) (seq 0 m),
     {| rs_stream := rs_stream g; rs_drawn := rs_drawn g + m |}).
Proof.
  revert g. induction m as [|m IH]; intros [st k]; simpl.
  - now rewrite Nat.add_0_r.
  - rewrite IH. simpl. rewrite Nat.add_0_r. f_equal.
    + f_equal. rewrite <- seq_shift, map_map.
      apply map_ext. intros j. f_equal. lia.
    + f_equal. lia.
Qed.

(** Row [i] of the drawn matrix holds the variates [i * m .. i * m + m - 1]
    that follow the current position. *)
Lemma draw_rows_spec (n m : nat) (g : RandomState) :
  draw_rows n m g
  = (map (fun i => map (fun j => rs_stream g (rs_drawn g + i * m + j)) (seq 0 m))
       (seq 0 n),
     {| rs_stream := rs_stream g; rs_drawn := rs_drawn g + n * m |}).
Proof.
  revert g. induction n as [|n IH]; intros [st k]; simpl.
  - now rewrite Nat.add_0_r.
  - rewrite draw_row_spec, IH. simpl. f_equal.
    + f_equal.
      * apply map_ext. intros j. f_equal. lia.
      * rewrite <- seq_shift, map_map. apply map_ext. intros i.
        apply map_ext. intros j. f_equal. lia.
    + f_equal. lia.
Qed.

Lemma standard_normal_ok (n m : Z) (g : RandomState) :
  (0 <= n)%Z -> (0 <= m)%Z ->
  standard_normal n m g
  = (Ok (fst (draw_rows (Z.to_nat n) (Z.to_nat m) g)),
     {| rs_stream := rs_stream g;
        rs_drawn := rs_drawn g + Z.to_nat n * Z.to_nat m |}).
Proof.
  intros Hn Hm. unfold standard_normal.
  replace (n <? 0)%Z with false by (symmetry; apply Z.ltb_ge; lia).
  replace (m <? 0)%Z with false by (symmetry; apply Z.ltb_ge; lia).
  simpl. now rewrite draw_rows_spec.
Qed.

(** *** The loop, row by row *)

Section Paths.

Variables S0 r sigma dt : R.

Lemma gbm_step_rows (Zs : matrix) (init : list R -> list R) (t : nat) :
  gbm_step r sigma dt Zs (map init Zs) t
  = map (fun zs => row_step r sigma dt zs (init zs) t) Zs.
Proof.
  unfold gbm_step, set_column, map2, column, row_step, log_return.
  induction Zs as [|zs Zs IH]; simpl; [reflexivity|].
  f_equal. exact IH.
Qed.

Lemma gbm_loop_rows (Zs : matrix) (ts : list nat) (init : list R -> list R) :
  fold_left (gbm_step r sigma dt Zs) ts (map init Zs)
  = map (fun zs => fold_left (row_step r sigma dt zs) ts (init zs)) Zs.
Proof.
  revert init. induction ts as [|t ts IH]; intros init; simpl; [reflexivity|].
  rewrite gbm_step_rows. apply (IH (fun zs => row_step r sigma dt zs (init zs) t)).
Qed.

Lemma gbm_paths_rows (Zs : matrix) (n m : nat) :
  length Zs = n ->
  gbm_paths S0 r sigma dt Zs n m = map (row_path S0 r sigma dt m) Zs.
Proof.
  intros Hn. unfold gbm_paths, fill_column, np_zeros.
  rewrite map_repeat, <- Hn, <- (map_const (set_nth 0 S0 (repeat 0 m)) Zs).
  apply gbm_loop_rows.
Qed.

Lemma Rsum_app (u v : list R) : Rsum (u ++ v) = Rsum u + Rsum v.
Proof. unfold Rsum. induction u; simpl; lra. Qed.

Lemma path_value_0 (zs : list R) : path_value S0 r sigma dt zs 0 = S0.
Proof. unfold path_value. simpl. rewrite exp_0. lra. Qed.

Lemma path_value_S (zs : list R) (j : nat) :
  path_value S0 r sigma dt zs (S j)
  = path_value S0 r sigma dt zs j
    * exp (log_return r sigma dt (nth (S j) zs 0)).
Proof.
  unfold path_value. rewrite seq_S, map_app, Rsum_app, exp_plus.
  change (1 + j)%nat with (S j). unfold Rsum at 2. cbn [map fold_right].
  rewrite Rplus_0_r. ring.
Qed.

(** The invariant of the loop on one row: after the steps [1 .. k] the row
    holds the path up to column [k]. *)
Lemma row_prefix (m : nat) (zs : list R) (k : nat) :
  (k < m)%nat ->
  let row :=
    fold_left (row_step r sigma dt zs) (seq 1 k) (set_nth 0 S0 (repeat 0 m)) in
  length row = m
  /\ forall j, (j <= k)%nat -> nth j row 0 = path_value S0 r sigma dt zs j.
Proof.
  induction k as [|k IH]; intros Hk; cbv zeta.
  - cbn [seq fold_left].
    split; [now rewrite length_set_nth, repeat_length|].
    intros j Hj. replace j with 0%nat by lia.
    rewrite path_value_0. apply nth_set_nth_eq. rewrite repeat_length. lia.
  - destruct IH as [Hlen Hrow]; [lia|].
    rewrite seq_S, fold_left_app. cbn [fold_left].
    change (1 + k)%nat with (S k).
    set (row := fold_left (row_step r sigma dt zs) (seq 1 k)
                  (set_nth 0 S0 (repeat 0 m))) in *.
    unfold row_step. split; [now rewrite length_set_nth|].
    intros j Hj. destruct (Nat.eq_dec j (S k)) as [->|Hne].
    + rewrite nth_set_nth_eq by lia.
      rewrite path_value_S.
      replace (S k - 1)%nat with k by lia.
      now rewrite Hrow by lia.
    + rewrite nth_set_nth_neq by exact Hne. apply Hrow. lia.
Qed.

Lemma row_path_spec (m : nat) (zs : list R) :
  (1 <= m)%nat ->
  length (row_path S0 r sigma dt m zs) = m
  /\ forall j, (j < m)%nat ->
       nth j (row_path S0 r sigma dt m zs) 0 = path_value S0 r sigma dt zs j.
Proof.
  intros Hm. destruct (row_prefix m zs (m - 1)) as [Hlen Hrow]; [lia|].
  split; [exact Hlen|]. intros j Hj. apply Hrow. lia.
Qed.

(** The loop never reads column [0] of the variates. *)
Lemma row_path_ext (m : nat) (zs zs' : list R) :
  (forall j, (1 <= j)%nat -> nth j zs 0 = nth j zs' 0) ->
  row_path S0 r sigma dt m zs = row_path S0 r sigma dt m zs'.
Proof.
  intros H. unfold row_path.
  generalize (set_nth 0 S0 (repeat 0 m)).
  assert (Hin : forall t, In t (seq 1 (m - 1)) -> (1 <= t)%nat)
    by (intros t Ht; apply in_seq in Ht; lia).
  induction (seq 1 (m - 1)) as [|t ts IH]; intros row; cbn [fold_left];
    [reflexivity|].
  replace (row_step r sigma dt zs' row t) with (row_step r sigma dt zs row t)
    by (unfold row_step; rewrite (H t) by (apply Hin; now left); reflexivity).
  apply IH. intros t' Ht'. apply Hin. now right.
Qed.

End Paths.

(** One path of two columns: the second column uses the variate of column
    [1], the variate of column [0] is left unused. *)
Example gbm_paths_one_path (S0 r sigma dt z0 z1 : R) :
  gbm_paths S0 r sigma dt [[z0; z1]] 1 2
  = [[S0; S0 * exp ((r - 0.5 * sigma ^ 2) * dt + sigma * sqrt dt * z1)]].
Proof. reflexivity. Qed.

(** *** The whole function *)

Section Run.

Variable mt19937_normals : Z -> nat -> R.
Variables S0 K T r sigma : R.
Variables num_simulations num_steps : Z.

Hypothesis Hsims : (0 <= num_simulations)%Z.
Hypothesis Hsteps : (1 <= num_steps)%Z.

Let n : nat := Z.to_nat num_simulations.
Let m : nat := Z.to_nat num_steps.
Let dt : R := T / IZR num_steps.

Lemma draw_variates (g : RandomState) :
  standard_normal num_simulations num_steps (np_random_seed mt19937_normals 42 g)
  = (Ok (variates mt19937_normals n m), seeded_42 mt19937_normals (n * m)).
Proof.
  rewrite standard_normal_ok by lia. rewrite draw_rows_spec.
  reflexivity.
Qed.

Lemma length_variates : length (variates mt19937_normals n m) = n.
Proof. unfold variates. now rewrite length_map, length_seq. Qed.

Lemma terminal_column :
  column (gbm_paths S0 r sigma dt (variates mt19937_normals n m) n m) (m - 1)
  = map (fun zs => path_value S0 r sigma dt zs (m - 1))
      (variates mt19937_normals n m).
Proof.
  rewrite gbm_paths_rows by apply length_variates.
  unfold column. rewrite map_map. apply map_ext. intros zs.
  apply row_path_spec; subst m; lia.
Qed.

(** The function unfolded: seed, draw, build the paths, then look at the
    option type. *)
Lemma monte_carlo_european_run (option_type : string) (g : RandomState) :
  monte_carlo_european mt19937_normals S0 K T r sigma option_type
    num_simulations num_steps g
  = let ST :=
      column (gbm_paths S0 r sigma dt (variates mt19937_normals n m) n m)
        (m - 1) in
    let g' := seeded_42 mt19937_normals (n * m) in
    if (option_type =? "Call")%string then
      (Ok (exp (- r * T) * np_mean (map (call_payoff K) ST)), g')
    else if (option_type =? "Put")%string then
      (Ok (exp (- r * T) * np_mean (map (put_payoff K) ST)), g')
    else (Raise invalid_option_type_error, g').
Proof.
  unfold monte_carlo_european.
  replace (num_steps =? 0)%Z with false by (symmetry; apply Z.eqb_neq; lia).
  cbv zeta. rewrite draw_variates. reflexivity.
Qed.

End Run.

Lemma Rsum_nonneg (l : list R) : Forall (fun x => 0 <= x) l -> 0 <= Rsum l.
Proof. unfold Rsum. induction 1; simpl; lra. Qed.

Lemma np_mean_nonneg (l : list R) :
  l <> [] -> Forall (fun x => 0 <= x) l -> 0 <= np_mean l.
Proof.
  intros Hl H. unfold np_mean. apply Rmult_le_pos; [now apply Rsum_nonneg|].
  apply Rlt_le, Rinv_0_lt_compat, lt_0_INR.
  destruct l; [congruence | simpl; lia].
Qed.

Lemma Rsum_repeat (c : R) (k : nat) : Rsum (repeat c k) = INR k * c.
Proof.
  unfold Rsum. induction k as [|k IH]; [simpl; lra|].
  cbn [repeat fold_right]. rewrite IH, S_INR. lra.
Qed.

Lemma np_mean_repeat (c : R) (k : nat) :
  (1 <= k)%nat -> np_mean (repeat c k) = c.
Proof.
  intros Hk. unfold np_mean. rewrite Rsum_repeat, repeat_length.
  field. apply not_0_INR. lia.
Qed.

(** *** The properties of the specification *)

(** C3, counterexample: with the option type ["Straddle"], two paths and
    three steps, the error is raised once the generator has been reseeded
    and all six variates have been drawn. *)
Lemma invalid_option_type_after_simulation :
  monte_carlo_european sample_normals 100 110 1 0.05 0.2 "Straddle" 2 3
    sample_state
  = (Raise invalid_option_type_error, seeded_42 sample_normals 6)
  /\ rs_drawn (snd (monte_carlo_european sample_normals 100 110 1 0.05 0.2
                      "Straddle" 2 3 sample_state)) <> 0%nat
  /\ snd (monte_carlo_european sample_normals 100 110 1 0.05 0.2
            "Straddle" 2 3 sample_state) <> sample_state.
Proof.
  rewrite monte_carlo_european_run by lia.
  cbv zeta. replace ("Straddle" =? "Call")%string with false by reflexivity.
  replace ("Straddle" =? "Put")%string with false by reflexivity.
  split; [reflexivity|]. split; cbn; [lia | discriminate].
Qed.

(** C3, as the code has it: for an option type that is neither ["Call"] nor
    ["Put"], with [num_simulations >= 0] and [num_steps >= 1], the function
    raises the error and returns no price, after it has reseeded the
    generator and drawn all [num_simulations * num_steps] variates. *)
Theorem invalid_option_type_raises (mt19937_normals : Z -> nat -> R)
    (S0 K T r sigma : R) (option_type : string)
    (num_simulations num_steps : Z) (g : RandomState) :
  option_type <> "Call" -> option_type <> "Put" ->
  (0 <= num_simulations)%Z -> (1 <= num_steps)%Z ->
  monte_carlo_european mt19937_normals S0 K T r sigma option_type
    num_simulations num_steps g
  = (Raise invalid_option_type_error,
     seeded_42 mt19937_normals (Z.to_nat num_simulations * Z.to_nat num_steps)).
Proof.
  intros HC HP Hn Hm. rewrite monte_carlo_european_run by assumption.
  apply String.eqb_neq in HC, HP. cbv zeta. now rewrite HC, HP.
Qed.

Lemma invalid_option_type_raises_witness :
  monte_carlo_european sample_normals 100 110 1 0.05 0.2 "call" 10 5
    sample_state
  = (Raise invalid_option_type_error, seeded_42 sample_normals 50).
Proof.
  apply (invalid_option_type_raises sample_normals 100 110 1 0.05 0.2 "call"
           10 5 sample_state); [discriminate | discriminate | lia | lia].
Defined.

(** In real arithmetic, where the square root is taken of a non-negative
    number: for ["Call"] and ["Put"], with at least one path and one step,
    the function returns a price, and the price is not negative. *)
Lemma real_price_nonnegative (mt19937_normals : Z -> nat -> R)
    (S0 K T r sigma : R) (option_type : string)
    (num_simulations num_steps : Z) (g : RandomState) :
  option_type = "Call" \/ option_type = "Put" ->
  (1 <= num_simulations)%Z -> (1 <= num_steps)%Z ->
  0 <= T \/ num_steps = 1%Z ->
  exists option_price,
    fst (monte_carlo_european mt19937_normals S0 K T r sigma option_type
           num_simulations num_steps g) = Ok option_price
    /\ 0 <= option_price.
Proof.
  intros Hty Hn Hm _. rewrite monte_carlo_european_run by lia. cbv zeta.
  set (ST := column _ _).
  assert (HST : ST <> []).
  { unfold ST. rewrite terminal_column by lia.
    intros E. apply (f_equal (@length R)) in E.
    rewrite length_map, length_variates in E. simpl in E. lia. }
  destruct Hty as [-> | ->].
  - replace ("Call" =? "Call")%string with true by reflexivity.
    eexists. split; [reflexivity|].
    apply Rmult_le_pos; [apply Rlt_le, exp_pos|].
    apply np_mean_nonneg.
    + destruct ST; [congruence | discriminate].
    + apply Forall_map, Forall_forall. intros x _. apply Rmax_r.
  - replace ("Put" =? "Call")%string with false by reflexivity.
    replace ("Put" =? "Put")%string with true by reflexivity.
    eexists. split; [reflexivity|].
    apply Rmult_le_pos; [apply Rlt_le, exp_pos|].
    apply np_mean_nonneg.
    + destruct ST; [congruence | discriminate].
    + apply Forall_map, Forall_forall. intros x _. apply Rmax_r.
Qed.

(** C9: for ["Call"] and ["Put"], two calls with the same parameters return
    the same result whatever the generator held before each of them: the
    call reseeds it with 42 before it draws. *)
Theorem reproducible (mt19937_normals : Z -> nat -> R)
    (S0 K T r sigma : R) (option_type : string)
    (num_simulations num_steps : Z) (g1 g2 : RandomState) :
  option_type = "Call" \/ option_type = "Put" ->
  fst (monte_carlo_european mt19937_normals S0 K T r sigma option_type
         num_simulations num_steps g1)
  = fst (monte_carlo_european mt19937_normals S0 K T r sigma option_type
           num_simulations num_steps g2)
  /\ (num_steps <> 0%Z ->
      snd (monte_carlo_european mt19937_normals S0 K T r sigma option_type
             num_simulations num_steps g1)
      = snd (monte_carlo_european mt19937_normals S0 K T r sigma option_type
               num_simulations num_steps g2)
      /\ rs_stream (snd (monte_carlo_european mt19937_normals S0 K T r sigma
                           option_type num_simulations num_steps g1))
         = mt19937_normals 42%Z).
Proof.
  intros _. unfold monte_carlo_european.
  destruct (Z.eqb_spec num_steps 0) as [E|E]; [split; [reflexivity | tauto]|].
  cbv zeta. unfold np_random_seed.
  split; [reflexivity|]. intros _. split; [reflexivity|].
  unfold standard_normal.
  destruct ((num_simulations <? 0)%Z || (num_steps <? 0)%Z)%bool;
    [reflexivity|].
  rewrite draw_rows_spec.
  destruct (option_type =? "Call")%string; [reflexivity|].
  destruct (option_type =? "Put")%string; reflexivity.
Qed.

Lemma reproducible_witness :
  fst (monte_carlo_european sample_normals 100 110 1 0.05 0.2 "Call" 4 3
         sample_state)
  = fst (monte_carlo_european sample_normals 100 110 1 0.05 0.2 "Call" 4 3
           (seeded_42 sample_normals 1000)).
Proof.
  apply (reproducible sample_normals 100 110 1 0.05 0.2 "Call" 4 3
           sample_state (seeded_42 sample_normals 1000)).
  left; reflexivity.
Defined.

(** C10: with [num_steps = 1] the loop runs zero times and every terminal
    price is [S0]; with at least one path, the function returns
    [exp (- r T) * max (S0 - K, 0)] for a call and
    [exp (- r T) * max (K - S0, 0)] for a put, whatever [sigma] and the
    variates are. *)
Theorem single_step_price (mt19937_normals : Z -> nat -> R)
    (S0 K T r sigma : R) (num_simulations : Z) (g : RandomState) :
  (1 <= num_simulations)%Z ->
  seq 1 (Z.to_nat 1 - 1) = []
  /\ column (gbm_paths S0 r sigma (T / IZR 1)
               (variates mt19937_normals (Z.to_nat num_simulations) 1)
               (Z.to_nat num_simulations) 1) 0
     = repeat S0 (Z.to_nat num_simulations)
  /\ fst (monte_carlo_european mt19937_normals S0 K T r sigma "Call"
            num_simulations 1 g)
     = Ok (exp (- r * T) * Rmax (S0 - K) 0)
  /\ fst (monte_carlo_european mt19937_normals S0 K T r sigma "Put"
            num_simulations 1 g)
     = Ok (exp (- r * T) * Rmax (K - S0) 0).
Proof.
  intros Hn.
  assert (Hcol : column (gbm_paths S0 r sigma (T / IZR 1)
                           (variates mt19937_normals (Z.to_nat num_simulations) 1)
                           (Z.to_nat num_simulations) 1) 0
                 = repeat S0 (Z.to_nat num_simulations)).
  { unfold gbm_paths. cbn [Nat.sub seq fold_left].
    unfold fill_column, np_zeros, column.
    rewrite map_repeat. cbn [repeat set_nth]. rewrite map_repeat.
    reflexivity. }
  split; [reflexivity|]. split; [exact Hcol|].
  rewrite !monte_carlo_european_run by lia. cbv zeta.
  replace ("Call" =? "Call")%string with true by reflexivity.
  replace ("Put" =? "Call")%string with false by reflexivity.
  replace ("Put" =? "Put")%string with true by reflexivity.
  cbn [fst].
  change (Z.to_nat 1) with 1%nat. change (1 - 1)%nat with 0%nat.
  rewrite Hcol, !map_repeat, !np_mean_repeat by lia.
  split; reflexivity.
Qed.

Lemma single_step_price_witness :
  fst (monte_carlo_european sample_normals 120 110 1 0.05 0.2 "Call" 4 1
         sample_state)
  = Ok (exp (- (0.05) * 1) * Rmax (120 - 110) 0).
Proof.
  apply (single_step_price sample_normals 120 110 1 0.05 0.2 4 sample_state).
  lia.
Defined.

Lemma nth_map_in {A B : Type} (f : A -> B) (l : list A) (i : nat) (d : B)
    (d' : A) :
  (i < length l)%nat -> nth i (map f l) d = f (nth i l d').
Proof.
  intros Hi. rewrite (nth_indep _ d (f d')) by now rewrite length_map.
  apply map_nth.
Qed.

Lemma entry_variates (mt19937_normals : Z -> nat -> R) (n m i j : nat) :
  (i < n)%nat -> (j < m)%nat ->
  entry (variates mt19937_normals n m) i j = mt19937_normals 42%Z (i * m + j)%nat.
Proof.
  intros Hi Hj. unfold entry, variates.
  rewrite (nth_map_in _ _ _ _ 0%nat) by now rewrite length_seq.
  rewrite (nth_map_in _ _ _ _ 0%nat) by now rewrite length_seq.
  now rewrite !seq_nth.
Qed.

Lemma entry_gbm_paths (S0 r sigma dt : R) (Zs : matrix) (n m i j : nat) :
  length Zs = n -> (i < n)%nat -> (j < m)%nat ->
  entry (gbm_paths S0 r sigma dt Zs n m) i j
  = path_value S0 r sigma dt (nth i Zs []) j.
Proof.
  intros Hn Hi Hj. rewrite gbm_paths_rows by exact Hn. unfold entry.
  rewrite (nth_map_in _ _ _ _ []) by lia.
  apply row_path_spec; lia.
Qed.

Lemma gbm_paths_ext (S0 r sigma dt : R) (Zs Zs' : matrix) (n m : nat) :
  length Zs = n ->
  Forall2 (fun zs zs' => forall j, (1 <= j)%nat -> nth j zs 0 = nth j zs' 0)
    Zs Zs' ->
  gbm_paths S0 r sigma dt Zs' n m = gbm_paths S0 r sigma dt Zs n m.
Proof.
  intros Hn H.
  rewrite (gbm_paths_rows _ _ _ _ Zs) by exact Hn.
  rewrite (gbm_paths_rows _ _ _ _ Zs')
    by (rewrite <- Hn; symmetry; eapply Forall2_length; eassumption).
  clear Hn. induction H as [|zs zs' Zs Zs' Hz _ IH]; simpl; [reflexivity|].
  f_equal; [symmetry; now apply row_path_ext | exact IH].
Qed.

(** C6: for a configuration with at least one path and one step, the call
    draws the whole [N x M] matrix [Z] of variates after seeding, and builds
    each path with [S[i, 0] = S0] and
    [S[i, j] = S[i, j - 1] * exp ((r - 0.5 sigma^2) dt + sigma sqrt(dt) Z[i, j])]
    for [j = 1 .. M - 1], [dt = T / M]; column [0] of [Z] is never read, the
    terminal price of path [i] is
    [S0 * exp (sum_{j = 1 .. M - 1} ((r - 0.5 sigma^2) dt + sigma sqrt(dt) Z[i, j]))],
    and the price returned is the discounted mean payoff of the terminal
    column. *)
Theorem gbm_path_construction (mt19937_normals : Z -> nat -> R)
    (S0 K T r sigma : R) (num_simulations num_steps : Z) :
  (1 <= num_simulations)%Z -> (1 <= num_steps)%Z ->
  let n := Z.to_nat num_simulations in
  let m := Z.to_nat num_steps in
  let dt := T / IZR num_steps in
  let Zs := variates mt19937_normals n m in
  let S := gbm_paths S0 r sigma dt Zs n m in
  (forall g,
     standard_normal num_simulations num_steps
       (np_random_seed mt19937_normals 42 g)
     = (Ok Zs, seeded_42 mt19937_normals (n * m)))
  /\ (forall i j, (i < n)%nat -> (j < m)%nat ->
        entry Zs i j = mt19937_normals 42%Z (i * m + j)%nat)
  /\ (forall i, (i < n)%nat ->
        entry S i 0 = S0
        /\ (forall j, (1 <= j < m)%nat ->
              entry S i j
              = entry S i (j - 1)
                * exp ((r - 0.5 * sigma ^ 2) * dt
                       + sigma * sqrt dt * entry Zs i j))
        /\ entry S i (m - 1)
           = S0 * exp (Rsum (map (fun j => (r - 0.5 * sigma ^ 2) * dt
                                           + sigma * sqrt dt * entry Zs i j)
                               (seq 1 (m - 1)))))
  /\ (forall Zs',
        Forall2 (fun zs zs' => forall j, (1 <= j)%nat -> nth j zs 0 = nth j zs' 0)
          Zs Zs' ->
        gbm_paths S0 r sigma dt Zs' n m = S)
  /\ (forall g,
        fst (monte_carlo_european mt19937_normals S0 K T r sigma "Call"
               num_simulations num_steps g)
        = Ok (exp (- r * T) * np_mean (map (call_payoff K) (column S (m - 1))))
        /\ fst (monte_carlo_european mt19937_normals S0 K T r sigma "Put"
                  num_simulations num_steps g)
           = Ok (exp (- r * T) * np_mean (map (put_payoff K) (column S (m - 1))))).
Proof.
  intros Hn Hm n m dt Zs S.
  assert (HZ : length Zs = n) by (apply length_variates).
  assert (Hm1 : (1 <= m)%nat) by (subst m; lia).
  split; [intros g; apply draw_variates; lia|].
  split; [intros i j; apply entry_variates|].
  split; [|split].
  - intros i Hi. subst S.
    split; [|split].
    + rewrite entry_gbm_paths by (assumption || lia). apply path_value_0.
    + intros j Hj. rewrite !entry_gbm_paths by (assumption || lia).
      replace j with (Datatypes.S (j - 1)) at 1 by lia.
      rewrite path_value_S. replace (Datatypes.S (j - 1)) with j by lia.
      reflexivity.
    + rewrite entry_gbm_paths by (assumption || lia). reflexivity.
  - intros Zs' H. now apply gbm_paths_ext.
  - intros g. rewrite !monte_carlo_european_run by lia. split; reflexivity.
Qed.

Lemma gbm_path_construction_witness :
  entry (gbm_paths 100 0.05 0.2 (1 / IZR 3) (variates sample_normals 2 3) 2 3)
    1 0 = 100
  /\ entry (variates sample_normals 2 3) 1 0 = sample_normals 42 3.
Proof.
  destruct (gbm_path_construction sample_normals 100 110 1 0.05 0.2 2 3)
    as (_ & HZ & HS & _); [lia | lia |].
  split.
  - apply (HS 1%nat). simpl. lia.
  - apply (HZ 1%nat 0%nat); simpl; lia.
Defined.

End MonteCarloFacts.

(** ** Facts about [monte_carlo_european] with not-a-number *)

Module MonteCarloNaNFacts.
Import MonteCarlo MonteCarloFacts MonteCarloNaN.

Lemma nan_sqrt_nonneg (x : R) : 0 <= x -> nan_sqrt x = Finite (sqrt x).
Proof. intros H. unfold nan_sqrt. destruct (Rlt_dec x 0); [lra | reflexivity]. Qed.

Lemma nan_sqrt_negative (x : R) : x < 0 -> nan_sqrt x = NaN.
Proof. intros H. unfold nan_sqrt. destruct (Rlt_dec x 0); [reflexivity | lra]. Qed.

Lemma nan_set_nth_finite (j : nat) (x : R) (row : list R) :
  nan_set_nth j (Finite x) (map Finite row) = map Finite (set_nth j x row).
Proof.
  revert j. induction row as [|y row IH]; intros [|j]; simpl;
    try reflexivity.
  now rewrite IH.
Qed.

Lemma nan_column_finite (A : matrix) (j : nat) :
  nan_column (finite_matrix A) j = map Finite (column A j).
Proof.
  unfold nan_column, finite_matrix, column. rewrite !map_map.
  apply map_ext. intros row. apply (map_nth Finite).
Qed.

Lemma nan_zeros_finite (n m : nat) : nan_zeros n m = finite_matrix (np_zeros n m).
Proof. unfold nan_zeros, finite_matrix, np_zeros. now rewrite !map_repeat. Qed.

Lemma nan_fill_column_finite (A : matrix) (j : nat) (x : R) :
  nan_fill_column (finite_matrix A) j (Finite x)
  = finite_matrix (fill_column A j x).
Proof.
  unfold nan_fill_column, finite_matrix, fill_column. rewrite !map_map.
  apply map_ext. intros row. apply nan_set_nth_finite.
Qed.

Lemma nan_set_column_finite (A : matrix) (j : nat) (v : list R) :
  nan_set_column (finite_matrix A) j (map Finite v)
  = finite_matrix (set_column A j v).
Proof.
  unfold nan_set_column, finite_matrix, set_column.
  revert v. induction A as [|row A IH]; intros [|x v]; simpl;
    try reflexivity.
  now rewrite nan_set_nth_finite, IH.
Qed.

(** While the square root is taken of a non-negative number, a step of the
    loop stays within the real numbers. *)
Lemma nan_gbm_step_finite (r sigma dt : R) (Zs S : matrix) (t : nat) :
  0 <= dt ->
  nan_gbm_step r sigma dt Zs (finite_matrix S) t
  = finite_matrix (gbm_step r sigma dt Zs S t).
Proof.
  intros Hdt. unfold nan_gbm_step, gbm_step.
  rewrite nan_column_finite, <- nan_set_column_finite. f_equal.
  unfold map2. rewrite (nan_sqrt_nonneg dt Hdt).
  generalize (column S (t - 1)) (column Zs t).
  induction l as [|x l IH]; intros [|z l0]; simpl; try reflexivity.
  now rewrite IH.
Qed.

Lemma nan_gbm_paths_finite (S0 r sigma dt : R) (Zs : matrix) (n m : nat) :
  0 <= dt \/ (m <= 1)%nat ->
  nan_gbm_paths S0 r sigma dt Zs n m
  = finite_matrix (gbm_paths S0 r sigma dt Zs n m).
Proof.
  intros H. unfold nan_gbm_paths, gbm_paths.
  rewrite nan_zeros_finite, nan_fill_column_finite.
  generalize (fill_column (np_zeros n m) 0 S0).
  destruct H as [Hdt|Hm].
  - induction (seq 1 (m - 1)) as [|t ts IH]; intros S; simpl; [reflexivity|].
    now rewrite nan_gbm_step_finite, IH.
  - replace (m - 1)%nat with 0%nat by lia. reflexivity.
Qed.

Lemma nan_sum_finite (l : list R) :
  fold_right nan_add (Finite 0) (map Finite l) = Finite (Rsum l).
Proof.
  unfold Rsum. induction l as [|x l IH]; simpl; [reflexivity|].
  now rewrite IH.
Qed.

Lemma nan_mean_finite (l : list R) :
  l <> [] -> nan_mean (map Finite l) = Finite (np_mean l).
Proof.
  intros Hl. destruct l as [|x l]; [congruence|].
  unfold nan_mean, np_mean.
  change (map Finite (x :: l)) with (Finite x :: map Finite l).
  change (Finite x :: map Finite l) with (map Finite (x :: l)).
  rewrite nan_sum_finite, length_map.
  destruct (map Finite (x :: l)) eqn:E; [discriminate|].
  reflexivity.
Qed.

(** With at least one path and one step, and a non-negative [T] or a
    single step (the square root is taken inside the loop), the function
    stays within the real numbers: it returns what [monte_carlo_european]
    returns. *)
Lemma monte_carlo_european_nan_finite (mt19937_normals : Z -> nat -> R)
    (S0 K T r sigma : R) (option_type : string)
    (num_simulations num_steps : Z) (g : RandomState) :
  (1 <= num_simulations)%Z -> (1 <= num_steps)%Z ->
  0 <= T \/ num_steps = 1%Z ->
  monte_carlo_european_nan mt19937_normals S0 K T r sigma option_type
    num_simulations num_steps g
  = (finite_result
       (fst (monte_carlo_european mt19937_normals S0 K T r sigma option_type
               num_simulations num_steps g)),
     snd (monte_carlo_european mt19937_normals S0 K T r sigma option_type
            num_simulations num_steps g)).
Proof.
  intros Hn Hm HT.
  rewrite monte_carlo_european_run by lia. cbv zeta.
  unfold monte_carlo_european_nan.
  replace (num_steps =? 0)%Z with false by (symmetry; apply Z.eqb_neq; lia).
  cbv zeta. rewrite draw_variates by lia.
  assert (Hdt : 0 <= T / IZR num_steps \/ (Z.to_nat num_steps <= 1)%nat).
  { destruct HT as [HT|HT]; [left | right; lia].
    apply Rmult_le_pos; [exact HT|].
    apply Rlt_le, Rinv_0_lt_compat, IZR_lt. lia. }
  rewrite (nan_gbm_paths_finite _ _ _ _ _ _ _ Hdt), nan_column_finite.
  set (ST := column _ _).
  assert (HST : ST <> []).
  { unfold ST. rewrite terminal_column by lia.
    intros E. apply (f_equal (@length R)) in E.
    rewrite length_map, length_variates in E. simpl in E. lia. }
  destruct (option_type =? "Call")%string;
    [|destruct (option_type =? "Put")%string; [|reflexivity]].
  - rewrite map_map.
    rewrite (map_ext _ (fun x => Finite (call_payoff K x)))
      by (intros x; reflexivity).
    rewrite <- (map_map (call_payoff K) Finite), nan_mean_finite;
      [reflexivity|].
    destruct ST; [congruence | discriminate].
  - rewrite map_map.
    rewrite (map_ext _ (fun x => Finite (put_payoff K x)))
      by (intros x; reflexivity).
    rewrite <- (map_map (put_payoff K) Finite), nan_mean_finite;
      [reflexivity|].
    destruct ST; [congruence | discriminate].
Qed.

(** C8, counterexample: with [T = -1], two paths and three steps,
    [np.sqrt] is taken of [dt = -1/3]; every price of the terminal column is
    not-a-number and so is the price returned, which is not a number at or
    above zero. *)
Lemma price_not_a_number_for_negative_horizon :
  monte_carlo_european_nan sample_normals 100 110 (-1) 0.05 0.2 "Call" 2 3
    sample_state
  = (Ok NaN, seeded_42 sample_normals 6)
  /\ ~ (exists option_price,
          fst (monte_carlo_european_nan sample_normals 100 110 (-1) 0.05 0.2
                 "Call" 2 3 sample_state) = Ok (Finite option_price)
          /\ 0 <= option_price).
Proof.
  assert (E : monte_carlo_european_nan sample_normals 100 110 (-1) 0.05 0.2
                "Call" 2 3 sample_state
              = (Ok NaN, seeded_42 sample_normals 6)).
  { unfold monte_carlo_european_nan.
    replace (3 =? 0)%Z with false by reflexivity. cbv zeta.
    rewrite draw_variates by lia.
    change (Z.to_nat 2) with 2%nat. change (Z.to_nat 3) with 3%nat.
    replace ("Call" =? "Call")%string with true by reflexivity.
    unfold nan_gbm_paths, nan_zeros, nan_fill_column, variates.
    cbn [Nat.sub seq fold_left repeat map nan_set_nth].
    unfold nan_gbm_step, nan_set_column, nan_column, column.
    cbn [Nat.sub map combine nth fst snd nan_set_nth].
    rewrite (nan_sqrt_negative (-1 / IZR 3)) by lra.
    cbn [nan_mul nan_exp nan_add nan_sub nan_maximum nan_mean nan_div
         lift1 lift2 map combine nth fst snd nan_set_nth fold_right length].
    reflexivity. }
  split; [exact E|].
  rewrite E. intros (p & Hp & _). discriminate Hp.
Qed.

(** C8, as the code has it: for ["Call"] and ["Put"], with at least one
    path and one step, and [T >= 0] (or a single step, when the loop that
    takes the square root does not run), the price returned is a number
    and it is not negative. *)
Theorem price_nonnegative (mt19937_normals : Z -> nat -> R)
    (S0 K T r sigma : R) (option_type : string)
    (num_simulations num_steps : Z) (g : RandomState) :
  option_type = "Call" \/ option_type = "Put" ->
  (1 <= num_simulations)%Z -> (1 <= num_steps)%Z ->
  0 <= T \/ num_steps = 1%Z ->
  exists option_price,
    fst (monte_carlo_european_nan mt19937_normals S0 K T r sigma option_type
           num_simulations num_steps g) = Ok (Finite option_price)
    /\ 0 <= option_price.
Proof.
  intros Hty Hn Hm HT.
  rewrite monte_carlo_european_nan_finite by assumption.
  destruct (real_price_nonnegative mt19937_normals S0 K T r sigma option_type
              num_simulations num_steps g Hty Hn Hm HT) as (p & Ep & Hp).
  exists p. cbn [fst]. rewrite Ep. split; [reflexivity | exact Hp].
Qed.

Lemma price_nonnegative_witness :
  exists option_price,
    fst (monte_carlo_european_nan sample_normals 100 110 1 0.05 0.2 "Put" 4 3
           sample_state) = Ok (Finite option_price)
    /\ 0 <= option_price.
Proof.
  apply (price_nonnegative sample_normals 100 110 1 0.05 0.2 "Put" 4 3
           sample_state); [right; reflexivity | lia | lia | left; lra].
Defined.

End MonteCarloNaNFacts.

(** ** Further facts about [black_scholes] *)

Module BlackScholesExtra.
Import Numpy NumpyFacts BlackScholes BlackScholesFacts.

(** All six fields, position by position. *)
Section Fields.

Variables (S K : ndarray) (r : R) (t sigma : ndarray) (q : R) (s : shape).

Hypothesis Hbroadcast :
  broadcast_shapes4 (np_shape S) (np_shape K) (np_shape t) (np_shape sigma)
  = Some s.

Hypothesis Hlive : any_le t 0 = false.

Lemma black_scholes_call_fields :
  exists g, black_scholes S K r t sigma "Call" q = Ok g
    /\ Forall2 (fun a f =>
                  denotes s a (fun i => f (item S i) (item K i) r (item t i)
                                          (item sigma i) q))
         (fields g) call_formulas.
Proof.
  destruct (broadcast_shapes4_fits _ _ _ _ _ Hbroadcast) as (FS & FK & Ft & Fs).
  unfold black_scholes. rewrite Hlive.
  replace ("Call" =? "Call")%string with true by reflexivity.
  unfold_ops. cbv zeta. run s.
  eexists. split; [reflexivity|].
  unfold fields, call_formulas; cbn [price delta gamma vega theta rho].
  repeat constructor;
    (eapply denotes_ext; [solve_denotes | intros i; reflexivity]).
Qed.

Lemma black_scholes_put_fields :
  exists g, black_scholes S K r t sigma "Put" q = Ok g
    /\ Forall2 (fun a f =>
                  denotes s a (fun i => f (item S i) (item K i) r (item t i)
                                          (item sigma i) q))
         (fields g) put_formulas.
Proof.
  destruct (broadcast_shapes4_fits _ _ _ _ _ Hbroadcast) as (FS & FK & Ft & Fs).
  unfold black_scholes. rewrite Hlive.
  replace ("Put" =? "Call")%string with false by reflexivity.
  replace ("Put" =? "Put")%string with true by reflexivity.
  unfold_ops. cbv zeta. run s.
  eexists. split; [reflexivity|].
  unfold fields, put_formulas; cbn [price delta gamma vega theta rho].
  repeat constructor;
    (eapply denotes_ext; [solve_denotes | intros i; reflexivity]).
Qed.

(** Gamma and vega are computed after the branch on the option type. *)
Lemma black_scholes_common_fields :
  exists gc gp,
    black_scholes S K r t sigma "Call" q = Ok gc
    /\ black_scholes S K r t sigma "Put" q = Ok gp
    /\ gamma gc = gamma gp /\ vega gc = vega gp.
Proof.
  destruct (broadcast_shapes4_fits _ _ _ _ _ Hbroadcast) as (FS & FK & Ft & Fs).
  unfold black_scholes. rewrite Hlive.
  replace ("Call" =? "Call")%string with true by reflexivity.
  replace ("Put" =? "Call")%string with false by reflexivity.
  replace ("Put" =? "Put")%string with true by reflexivity.
  unfold_ops. cbv zeta. run s.
  eexists. eexists. split; [reflexivity|]. split; [reflexivity|].
  split; reflexivity.
Qed.

End Fields.

Ltac positive_product :=
  repeat match goal with
         | |- 0 < _ * _ => apply Rmult_lt_0_compat
         end;
  assumption.

Lemma Forall2_six {A B : Type} (P : A -> B -> Prop)
    (a1 a2 a3 a4 a5 a6 : A) (b1 b2 b3 b4 b5 b6 : B) :
  Forall2 P [a1; a2; a3; a4; a5; a6] [b1; b2; b3; b4; b5; b6] ->
  P a1 b1 /\ P a2 b2 /\ P a3 b3 /\ P a4 b4 /\ P a5 b5 /\ P a6 b6.
Proof.
  intros H.
  repeat match goal with
         | H : Forall2 _ (_ :: _) (_ :: _) |- _ =>
             apply Forall2_cons_iff in H; destruct H
         end.
  repeat split; assumption.
Qed.

Lemma broadcast_shapes_None_sym (s1 s2 : shape) :
  broadcast_shapes s1 s2 = None -> broadcast_shapes s2 s1 = None.
Proof. intros; shape_crush. Qed.

Lemma broadcast_shapes4_pairs (sS sK st ss a b c : shape) :
  broadcast_shapes sS sK = Some a ->
  broadcast_shapes ss st = Some b ->
  broadcast_shapes a b = Some c ->
  broadcast_shapes4 sS sK st ss <> None.
Proof.
  intros HSK Hst Hab.
  apply broadcast_shapes_fits in Hst as [Fs Ft].
  apply broadcast_shapes_fits in Hab as [Fa Fb].
  unfold broadcast_shapes4. rewrite HSK.
  rewrite (fits_broadcast a st c Fa (fits_trans _ _ _ Ft Fb)).
  rewrite (fits_broadcast (bjoin a st) ss c).
  - discriminate.
  - apply fits_bjoin; [exact Fa | exact (fits_trans _ _ _ Ft Fb)].
  - exact (fits_trans _ _ _ Fs Fb).
Qed.

Lemma d1_scale (lam S K r t sigma q : R) :
  lam <> 0 -> K <> 0 ->
  d1 (lam * S) (lam * K) r t sigma q = d1 S K r t sigma q.
Proof.
  intros Hl HK. unfold d1.
  replace (lam * S / (lam * K)) with (S / K) by (field; split; assumption).
  reflexivity.
Qed.

(** The sample batch of the notebook, with its arguments in the order of
    the parameters. *)
Definition sample_S : ndarray := Vector [100; 105; 110].
Definition sample_K : ndarray := Scalar 110.
Definition sample_t : ndarray := Scalar 1.
Definition sample_sigma : ndarray := Scalar 0.2.

Lemma sample_broadcast :
  broadcast_shapes4 (np_shape sample_S) (np_shape sample_K) (np_shape sample_t)
    (np_shape sample_sigma) = Some (Some 3%nat).
Proof. reflexivity. Defined.

Lemma sample_t_positive : all_positive sample_t.
Proof. repeat constructor. lra. Defined.

Lemma sample_sigma_positive : all_positive sample_sigma.
Proof. repeat constructor. lra. Defined.

Lemma sample_S_positive : all_positive sample_S.
Proof. repeat constructor; lra. Defined.

Lemma sample_K_positive : all_positive sample_K.
Proof. repeat constructor. lra. Defined.

(** X1: before expiry, for operands that broadcast together, an option type
    that is neither ["Call"] nor ["Put"] makes [black_scholes] raise its
    [ValueError]; nothing is returned. *)
Theorem unknown_option_type_rejected_before_expiry (S K : ndarray) (r : R)
    (t sigma : ndarray) (option_Type : string) (q : R) (s : shape) :
  broadcast_shapes4 (np_shape S) (np_shape K) (np_shape t) (np_shape sigma)
  = Some s ->
  all_positive t ->
  option_Type <> "Call" -> option_Type <> "Put" ->
  black_scholes S K r t sigma option_Type q = Raise invalid_option_type.
Proof.
  intros Hs Ht HC HP.
  apply (black_scholes_invalid_batch S K r t sigma q s Hs); try assumption.
  now apply all_positive_any_le.
Qed.

Lemma unknown_option_type_rejected_before_expiry_witness :
  black_scholes sample_S sample_K 0.05 sample_t sample_sigma "put" 0.02
  = Raise invalid_option_type.
Proof.
  apply (unknown_option_type_rejected_before_expiry sample_S sample_K 0.05
           sample_t sample_sigma "put" 0.02 (Some 3%nat) sample_broadcast
           sample_t_positive); discriminate.
Defined.

(** X2: when [S] and [K] do not broadcast together, [black_scholes] raises
    numpy's broadcasting [ValueError], at or before expiry and whatever the
    option type is. *)
Theorem strike_shape_mismatch_raises (S K : ndarray) (r : R)
    (t sigma : ndarray) (option_Type : string) (q : R) :
  broadcast_shapes (np_shape S) (np_shape K) = None ->
  black_scholes S K r t sigma option_Type q = Raise broadcast_error.
Proof.
  intros HSK. pose proof (broadcast_shapes_None_sym _ _ HSK) as HKS.
  unfold black_scholes, np_sub, np_div.
  rewrite !(ufunc2_raise _ S K HSK), !(ufunc2_raise _ K S HKS).
  destruct (any_le t 0); [|reflexivity].
  destruct (option_Type =? "Call")%string; reflexivity.
Qed.

Lemma strike_shape_mismatch_raises_witness :
  black_scholes (Vector [100; 105; 110]) (Vector [100; 110]) 0.05 (Scalar 1)
    (Scalar 0.2) "Call" 0
  = Raise broadcast_error.
Proof.
  apply (strike_shape_mismatch_raises (Vector [100; 105; 110])
           (Vector [100; 110]) 0.05 (Scalar 1) (Scalar 0.2) "Call" 0).
  reflexivity.
Defined.

(** X3: before expiry, when [S], [K], [t] and [sigma] do not all broadcast
    together, [black_scholes] raises numpy's broadcasting [ValueError]; it
    does so while it computes [d1], before it looks at the option type. *)
Theorem live_shape_mismatch_raises (S K : ndarray) (r : R)
    (t sigma : ndarray) (option_Type : string) (q : R) :
  any_le t 0 = false ->
  broadcast_shapes4 (np_shape S) (np_shape K) (np_shape t) (np_shape sigma)
  = None ->
  black_scholes S K r t sigma option_Type q = Raise broadcast_error.
Proof.
  intros Hlive H4.
  destruct (broadcast_shapes (np_shape S) (np_shape K)) as [a|] eqn:HSK;
    [|now apply strike_shape_mismatch_raises].
  pose proof (broadcast_shapes_fits _ _ _ HSK) as [FS FK].
  unfold black_scholes. rewrite Hlive. unfold_ops. cbv zeta.
  rewrite (ufunc2_zip a) by assumption. cbn [bind].
  destruct (broadcast_shapes (np_shape sigma) (np_shape t)) as [b|] eqn:Hst.
  - pose proof (broadcast_shapes_fits _ _ _ Hst) as [Fs Ft].
    rewrite (ufunc2_zip b) by solve_fits. cbn [bind].
    rewrite ufunc2_raise; [reflexivity|].
    rewrite np_shape_ufunc1, !np_shape_zip, !np_shape_ufunc1.
    rewrite (broadcast_shapes_bjoin _ _ _ HSK), (broadcast_shapes_bjoin _ _ _ Hst).
    destruct (broadcast_shapes a b) as [c|] eqn:Hab; [|reflexivity].
    exfalso. exact (broadcast_shapes4_pairs _ _ _ _ _ _ _ HSK Hst Hab H4).
  - rewrite ufunc2_raise; [reflexivity|].
    now rewrite !np_shape_ufunc1.
Qed.

Lemma live_shape_mismatch_raises_witness :
  black_scholes (Vector [100; 105; 110]) (Scalar 110) 0.05 (Vector [1; 2])
    (Scalar 0.2) "Straddle" 0
  = Raise broadcast_error.
Proof.
  apply (live_shape_mismatch_raises (Vector [100; 105; 110]) (Scalar 110) 0.05
           (Vector [1; 2]) (Scalar 0.2) "Straddle" 0).
  - apply all_positive_any_le. repeat constructor; lra.
  - reflexivity.
Defined.

(** X4: gamma and vega do not depend on the option type: before expiry a
    call and a put on the same inputs get the same two arrays. *)
Theorem gamma_vega_same_for_call_and_put (S K : ndarray) (r : R)
    (t sigma : ndarray) (q : R) (s : shape) :
  broadcast_shapes4 (np_shape S) (np_shape K) (np_shape t) (np_shape sigma)
  = Some s ->
  all_positive t ->
  exists gc gp,
    black_scholes S K r t sigma "Call" q = Ok gc
    /\ black_scholes S K r t sigma "Put" q = Ok gp
    /\ gamma gc = gamma gp
    /\ vega gc = vega gp.
Proof.
  intros Hs Ht. apply all_positive_any_le in Ht.
  exact (black_scholes_common_fields S K r t sigma q s Hs Ht).
Qed.

Lemma gamma_vega_same_for_call_and_put_witness :
  exists gc gp,
    black_scholes sample_S sample_K 0.05 sample_t sample_sigma "Call" 0.02
    = Ok gc
    /\ black_scholes sample_S sample_K 0.05 sample_t sample_sigma "Put" 0.02
       = Ok gp
    /\ gamma gc = gamma gp
    /\ vega gc = vega gp.
Proof.
  exact (gamma_vega_same_for_call_and_put sample_S sample_K 0.05 sample_t
           sample_sigma 0.02 (Some 3%nat) sample_broadcast sample_t_positive).
Defined.

(** X5: for positive [S], [K], [sigma] and [t], every gamma and every vega that
    [black_scholes] returns is positive, for a call and for a put. *)
Theorem gamma_vega_positive (S K : ndarray) (r : R) (t sigma : ndarray)
    (option_Type : string) (q : R) (s : shape) :
  broadcast_shapes4 (np_shape S) (np_shape K) (np_shape t) (np_shape sigma)
  = Some s ->
  all_positive S -> all_positive K -> all_positive t -> all_positive sigma ->
  option_Type = "Call" \/ option_Type = "Put" ->
  exists g,
    black_scholes S K r t sigma option_Type q = Ok g
    /\ forall i, valid_index s i ->
         0 < item (gamma g) i /\ 0 < item (vega g) i.
Proof.
  intros Hs HS _ Ht Hsig Hty.
  destruct (broadcast_shapes4_fits _ _ _ _ _ Hs) as (FS & FK & Ft & Fsig).
  pose proof (all_positive_any_le _ Ht) as Hlive.
  assert (Hpos : forall i, valid_index s i ->
            0 < gamma_formula (item S i) (item K i) r (item t i) (item sigma i) q
            /\ 0 < vega_formula (item S i) (item K i) r (item t i) (item sigma i) q).
  { intros i Hi.
    pose proof (all_positive_item s S i HS FS Hi) as HSi.
    pose proof (all_positive_item s t i Ht Ft Hi) as Hti.
    pose proof (all_positive_item s sigma i Hsig Fsig Hi) as Hsi.
    pose proof (sqrt_lt_R0 _ Hti) as Hw.
    pose proof (exp_pos (- q * item t i)) as He.
    pose proof (Norm.pdf_pos (d1 (item S i) (item K i) r (item t i)
                                (item sigma i) q)) as Hp.
    unfold gamma_formula, vega_formula. split.
    - apply Rdiv_lt_0_compat; positive_product.
    - positive_product. }
  destruct Hty as [-> | ->].
  - destruct (black_scholes_call_fields S K r t sigma q s Hs Hlive)
      as (g & Eg & F).
    apply Forall2_six in F as (_ & _ & [_ G] & [_ V] & _ & _).
    exists g. split; [exact Eg|]. intros i Hi.
    rewrite (G i Hi), (V i Hi). now apply Hpos.
  - destruct (black_scholes_put_fields S K r t sigma q s Hs Hlive)
      as (g & Eg & F).
    apply Forall2_six in F as (_ & _ & [_ G] & [_ V] & _ & _).
    exists g. split; [exact Eg|]. intros i Hi.
    rewrite (G i Hi), (V i Hi). now apply Hpos.
Qed.

Lemma gamma_vega_positive_witness :
  exists g,
    black_scholes sample_S sample_K 0.05 sample_t sample_sigma "Put" 0.02
    = Ok g
    /\ 0 < item (gamma g) 2 /\ 0 < item (vega g) 2.
Proof.
  destruct (gamma_vega_positive sample_S sample_K 0.05 sample_t sample_sigma
              "Put" 0.02 (Some 3%nat) sample_broadcast sample_S_positive
              sample_K_positive sample_t_positive sample_sigma_positive (or_intror eq_refl))
    as (g & Eg & H).
  exists g. split; [exact Eg|]. apply (H 2%nat). simpl. lia.
Defined.

(** X6: for positive [S], [K], [sigma] and [t], the vega and the gamma returned
    for the same position satisfy [vega = gamma * S^2 * sigma * t]. *)
Theorem vega_gamma_identity (S K : ndarray) (r : R) (t sigma : ndarray)
    (option_Type : string) (q : R) (s : shape) :
  broadcast_shapes4 (np_shape S) (np_shape K) (np_shape t) (np_shape sigma)
  = Some s ->
  all_positive S -> all_positive K -> all_positive t -> all_positive sigma ->
  option_Type = "Call" \/ option_Type = "Put" ->
  exists g,
    black_scholes S K r t sigma option_Type q = Ok g
    /\ forall i, valid_index s i ->
         item (vega g) i
         = item (gamma g) i * item S i ^ 2 * item sigma i * item t i.
Proof.
  intros Hs HS _ Ht Hsig Hty.
  destruct (broadcast_shapes4_fits _ _ _ _ _ Hs) as (FS & FK & Ft & Fsig).
  pose proof (all_positive_any_le _ Ht) as Hlive.
  assert (Hid : forall i, valid_index s i ->
            vega_formula (item S i) (item K i) r (item t i) (item sigma i) q
            = gamma_formula (item S i) (item K i) r (item t i) (item sigma i) q
              * item S i ^ 2 * item sigma i * item t i).
  { intros i Hi.
    pose proof (all_positive_item s S i HS FS Hi) as HSi.
    pose proof (all_positive_item s t i Ht Ft Hi) as Hti.
    pose proof (all_positive_item s sigma i Hsig Fsig Hi) as Hsi.
    pose proof (sqrt_lt_R0 _ Hti) as Hw.
    pose proof (sqrt_sqrt (item t i) (Rlt_le _ _ Hti)) as Hww.
    unfold gamma_formula, vega_formula.
    generalize (exp (- q * item t i))
      (Norm.pdf (d1 (item S i) (item K i) r (item t i) (item sigma i) q)).
    intros E P. remember (sqrt (item t i)) as w eqn:Ew.
    rewrite <- Hww. field. repeat split; lra. }
  destruct Hty as [-> | ->].
  - destruct (black_scholes_call_fields S K r t sigma q s Hs Hlive)
      as (g & Eg & F).
    apply Forall2_six in F as (_ & _ & [_ G] & [_ V] & _ & _).
    exists g. split; [exact Eg|]. intros i Hi.
    rewrite (G i Hi), (V i Hi). now apply Hid.
  - destruct (black_scholes_put_fields S K r t sigma q s Hs Hlive)
      as (g & Eg & F).
    apply Forall2_six in F as (_ & _ & [_ G] & [_ V] & _ & _).
    exists g. split; [exact Eg|]. intros i Hi.
    rewrite (G i Hi), (V i Hi). now apply Hid.
Qed.

Lemma vega_gamma_identity_witness :
  exists g,
    black_scholes sample_S sample_K 0.05 sample_t sample_sigma "Call" 0.02
    = Ok g
    /\ item (vega g) 0 = item (gamma g) 0 * 100 ^ 2 * 0.2 * 1.
Proof.
  destruct (vega_gamma_identity sample_S sample_K 0.05 sample_t sample_sigma
              "Call" 0.02 (Some 3%nat) sample_broadcast sample_S_positive
              sample_K_positive sample_t_positive sample_sigma_positive (or_introl eq_refl))
    as (g & Eg & H).
  exists g. split; [exact Eg|]. apply (H 0%nat). simpl. lia.
Defined.

(** X7: before expiry, for positive inputs, at every position the rho of the call minus the rho
    of the put is [K * t * exp (- r t)]. *)
Theorem rho_parity (S K : ndarray) (r : R) (t sigma : ndarray) (q : R)
    (s : shape) :
  broadcast_shapes4 (np_shape S) (np_shape K) (np_shape t) (np_shape sigma)
  = Some s ->
  all_positive S -> all_positive K -> all_positive t -> all_positive sigma ->
  exists gc gp,
    black_scholes S K r t sigma "Call" q = Ok gc
    /\ black_scholes S K r t sigma "Put" q = Ok gp
    /\ forall i, valid_index s i ->
         item (rho gc) i - item (rho gp) i
         = item K i * item t i * exp (- r * item t i).
Proof.
  intros Hs _ _ Ht _. apply all_positive_any_le in Ht.
  destruct (black_scholes_call_fields S K r t sigma q s Hs Ht) as (gc & Ec & Fc).
  destruct (black_scholes_put_fields S K r t sigma q s Hs Ht) as (gp & Ep & Fp).
  apply Forall2_six in Fc as (_ & _ & _ & _ & _ & [_ Rc]).
  apply Forall2_six in Fp as (_ & _ & _ & _ & _ & [_ Rp]).
  exists gc, gp. split; [exact Ec|]. split; [exact Ep|].
  intros i Hi. rewrite (Rc i Hi), (Rp i Hi).
  unfold call_rho, put_rho. rewrite Norm.cdf_opp. ring.
Qed.

Lemma rho_parity_witness :
  exists gc gp,
    black_scholes sample_S sample_K 0.05 sample_t sample_sigma "Call" 0.02
    = Ok gc
    /\ black_scholes sample_S sample_K 0.05 sample_t sample_sigma "Put" 0.02
       = Ok gp
    /\ item (rho gc) 1 - item (rho gp) 1 = 110 * 1 * exp (- (0.05) * 1).
Proof.
  destruct (rho_parity sample_S sample_K 0.05 sample_t sample_sigma 0.02
              (Some 3%nat) sample_broadcast sample_S_positive sample_K_positive
              sample_t_positive sample_sigma_positive)
    as (gc & gp & Ec & Ep & H).
  exists gc, gp. split; [exact Ec|]. split; [exact Ep|].
  apply (H 1%nat). simpl. lia.
Defined.

(** X8: before expiry, for positive inputs, at every position the theta of the call minus the
    theta of the put is [q * S * exp (- q t) - r * K * exp (- r t)]. *)
Theorem theta_parity (S K : ndarray) (r : R) (t sigma : ndarray) (q : R)
    (s : shape) :
  broadcast_shapes4 (np_shape S) (np_shape K) (np_shape t) (np_shape sigma)
  = Some s ->
  all_positive S -> all_positive K -> all_positive t -> all_positive sigma ->
  exists gc gp,
    black_scholes S K r t sigma "Call" q = Ok gc
    /\ black_scholes S K r t sigma "Put" q = Ok gp
    /\ forall i, valid_index s i ->
         item (theta gc) i - item (theta gp) i
         = q * item S i * exp (- q * item t i)
           - r * item K i * exp (- r * item t i).
Proof.
  intros Hs _ _ Ht _. apply all_positive_any_le in Ht.
  destruct (black_scholes_call_fields S K r t sigma q s Hs Ht) as (gc & Ec & Fc).
  destruct (black_scholes_put_fields S K r t sigma q s Hs Ht) as (gp & Ep & Fp).
  apply Forall2_six in Fc as (_ & _ & _ & _ & [_ Tc] & _).
  apply Forall2_six in Fp as (_ & _ & _ & _ & [_ Tp] & _).
  exists gc, gp. split; [exact Ec|]. split; [exact Ep|].
  intros i Hi. rewrite (Tc i Hi), (Tp i Hi).
  unfold call_theta, put_theta. rewrite !Norm.cdf_opp. unfold Rdiv. ring.
Qed.

Lemma theta_parity_witness :
  exists gc gp,
    black_scholes sample_S sample_K 0.05 sample_t sample_sigma "Call" 0.02
    = Ok gc
    /\ black_scholes sample_S sample_K 0.05 sample_t sample_sigma "Put" 0.02
       = Ok gp
    /\ item (theta gc) 1 - item (theta gp) 1
       = 0.02 * 105 * exp (- (0.02) * 1) - 0.05 * 110 * exp (- (0.05) * 1).
Proof.
  destruct (theta_parity sample_S sample_K 0.05 sample_t sample_sigma 0.02
              (Some 3%nat) sample_broadcast sample_S_positive sample_K_positive
              sample_t_positive sample_sigma_positive)
    as (gc & gp & Ec & Ep & H).
  exists gc, gp. split; [exact Ec|]. split; [exact Ep|].
  apply (H 1%nat). simpl. lia.
Defined.

(** X9: before expiry, for positive inputs, at every position the delta returned for the call
    and the delta returned for the put add up to [exp (- q t)]; both have
    the broadcast shape. *)
Theorem deltas_add_up (S K : ndarray) (r : R) (t sigma : ndarray) (q : R)
    (s : shape) :
  broadcast_shapes4 (np_shape S) (np_shape K) (np_shape t) (np_shape sigma)
  = Some s ->
  all_positive S -> all_positive K -> all_positive t -> all_positive sigma ->
  exists gc gp,
    black_scholes S K r t sigma "Call" q = Ok gc
    /\ black_scholes S K r t sigma "Put" q = Ok gp
    /\ np_shape (delta gc) = s
    /\ np_shape (delta gp) = s
    /\ forall i, valid_index s i ->
         item (delta gc) i + item (delta gp) i = exp (- q * item t i).
Proof.
  intros Hs _ _ Ht _. apply all_positive_any_le in Ht.
  destruct (black_scholes_call_batch S K r t sigma q s Hs Ht)
    as (gc & Ec & Sc & _ & [_ Dc]).
  destruct (black_scholes_put_batch S K r t sigma q s Hs Ht)
    as (gp & Ep & Sp & _ & [_ Dp]).
  exists gc, gp. split; [exact Ec|]. split; [exact Ep|].
  unfold fields in Sc, Sp.
  apply Forall_cons_iff in Sc as [_ Sc]. apply Forall_cons_iff in Sc as [Sc _].
  apply Forall_cons_iff in Sp as [_ Sp]. apply Forall_cons_iff in Sp as [Sp _].
  split; [exact Sc|]. split; [exact Sp|].
  intros i Hi. rewrite (Dc i Hi), (Dp i Hi).
  unfold call_delta, put_delta. rewrite Norm.cdf_opp. ring.
Qed.

Lemma deltas_add_up_witness :
  exists gc gp,
    black_scholes sample_S sample_K 0.05 sample_t sample_sigma "Call" 0.02
    = Ok gc
    /\ black_scholes sample_S sample_K 0.05 sample_t sample_sigma "Put" 0.02
       = Ok gp
    /\ item (delta gc) 2 + item (delta gp) 2 = exp (- (0.02) * 1).
Proof.
  destruct (deltas_add_up sample_S sample_K 0.05 sample_t sample_sigma 0.02
              (Some 3%nat) sample_broadcast sample_S_positive sample_K_positive
              sample_t_positive sample_sigma_positive)
    as (gc & gp & Ec & Ep & _ & _ & H).
  exists gc, gp. split; [exact Ec|]. split; [exact Ep|].
  apply (H 2%nat). simpl. lia.
Defined.

(** X10: at or past expiry, for [S] and [K] that broadcast together, both
    prices are non-negative and at every position the call price minus the
    put price is [S - K]. *)
Theorem expiry_parity (S K : ndarray) (r : R) (t sigma : ndarray) (q : R)
    (s : shape) :
  Exists (fun x => x <= 0) (ravel t) ->
  broadcast_shapes (np_shape S) (np_shape K) = Some s ->
  exists gc gp,
    black_scholes S K r t sigma "Call" q = Ok gc
    /\ black_scholes S K r t sigma "Put" q = Ok gp
    /\ forall i, valid_index s i ->
         0 <= item (price gc) i
         /\ 0 <= item (price gp) i
         /\ item (price gc) i - item (price gp) i = item S i - item K i.
Proof.
  intros Ht Hs. apply any_le_true in Ht.
  pose proof (broadcast_shapes_fits _ _ _ Hs) as [FS FK].
  exists (expired_result S (float_maximum 0 (zip Rminus S K))),
         (expired_result S (float_maximum 0 (zip Rminus K S))).
  split; [now apply (black_scholes_expired_call _ _ _ _ _ _ s)|].
  split; [apply (black_scholes_expired_other _ _ _ _ _ _ _ s);
          [assumption | assumption | discriminate]|].
  intros i Hi. cbn [expired_result price]. unfold float_maximum.
  assert (Dc : denotes s (ufunc1 (fun x => Rmax 0 x) (zip Rminus S K))
                 (fun i => Rmax 0 (item S i - item K i))) by solve_denotes.
  assert (Dp : denotes s (ufunc1 (fun x => Rmax 0 x) (zip Rminus K S))
                 (fun i => Rmax 0 (item K i - item S i))) by solve_denotes.
  rewrite (proj2 Dc i Hi), (proj2 Dp i Hi).
  split; [apply Rmax_l|]. split; [apply Rmax_l|].
  unfold Rmax.
  destruct (Rle_dec 0 (item S i - item K i)),
           (Rle_dec 0 (item K i - item S i)); lra.
Qed.

Lemma expiry_parity_witness :
  exists gc gp,
    black_scholes sample_S sample_K 0.05 (Vector [1; 0; 2]) sample_sigma
      "Call" 0.02 = Ok gc
    /\ black_scholes sample_S sample_K 0.05 (Vector [1; 0; 2]) sample_sigma
         "Put" 0.02 = Ok gp
    /\ item (price gc) 0 - item (price gp) 0 = 100 - 110.
Proof.
  destruct (expiry_parity sample_S sample_K 0.05 (Vector [1; 0; 2])
              sample_sigma 0.02 (Some 3%nat))
    as (gc & gp & Ec & Ep & H).
  - simpl. apply Exists_cons_tl, Exists_cons_hd. lra.
  - reflexivity.
  - exists gc, gp. split; [exact Ec|]. split; [exact Ep|].
    apply (H 0%nat). simpl. lia.
Defined.

(** X11: before expiry, for positive inputs, multiplying [S] and [K] by the
    same positive factor multiplies every call and put price by that factor
    and leaves every delta unchanged. *)
Theorem price_homogeneous (lam : R) (S K : ndarray) (r : R)
    (t sigma : ndarray) (option_Type : string) (q : R) (s : shape) :
  0 < lam ->
  broadcast_shapes4 (np_shape S) (np_shape K) (np_shape t) (np_shape sigma)
  = Some s ->
  all_positive S -> all_positive K -> all_positive t -> all_positive sigma ->
  option_Type = "Call" \/ option_Type = "Put" ->
  exists g g',
    black_scholes S K r t sigma option_Type q = Ok g
    /\ black_scholes (float_mul lam S) (float_mul lam K) r t sigma
         option_Type q = Ok g'
    /\ forall i, valid_index s i ->
         item (price g') i = lam * item (price g) i
         /\ item (delta g') i = item (delta g) i.
Proof.
  intros Hlam Hs _ HK Ht _ Hty.
  destruct (broadcast_shapes4_fits _ _ _ _ _ Hs) as (FS & FK & Ft & Fsig).
  pose proof (all_positive_any_le _ Ht) as Hlive.
  assert (Hs' : broadcast_shapes4 (np_shape (float_mul lam S))
                  (np_shape (float_mul lam K)) (np_shape t) (np_shape sigma)
                = Some s)
    by (unfold float_mul; now rewrite !np_shape_ufunc1).
  assert (DS : denotes s (float_mul lam S) (fun i => lam * item S i))
    by (unfold float_mul; solve_denotes).
  assert (DK : denotes s (float_mul lam K) (fun i => lam * item K i))
    by (unfold float_mul; solve_denotes).
  assert (HKi : forall i, valid_index s i -> item K i <> 0).
  { intros i Hi. pose proof (all_positive_item s K i HK FK Hi). lra. }
  assert (Hl : lam <> 0) by lra.
  destruct Hty as [-> | ->].
  - destruct (black_scholes_call_batch S K r t sigma q s Hs Hlive)
      as (g & Eg & _ & [_ P] & [_ D]).
    destruct (black_scholes_call_batch _ _ r t sigma q s Hs' Hlive)
      as (g' & Eg' & _ & [_ P'] & [_ D']).
    exists g, g'. split; [exact Eg|]. split; [exact Eg'|].
    intros i Hi. rewrite (P i Hi), (P' i Hi), (D i Hi), (D' i Hi).
    rewrite (proj2 DS i Hi), (proj2 DK i Hi).
    unfold call_price, call_delta, d2.
    rewrite (d1_scale lam _ _ r _ _ q Hl (HKi i Hi)).
    split; [ring | reflexivity].
  - destruct (black_scholes_put_batch S K r t sigma q s Hs Hlive)
      as (g & Eg & _ & [_ P] & [_ D]).
    destruct (black_scholes_put_batch _ _ r t sigma q s Hs' Hlive)
      as (g' & Eg' & _ & [_ P'] & [_ D']).
    exists g, g'. split; [exact Eg|]. split; [exact Eg'|].
    intros i Hi. rewrite (P i Hi), (P' i Hi), (D i Hi), (D' i Hi).
    rewrite (proj2 DS i Hi), (proj2 DK i Hi).
    unfold put_price, put_delta, d2.
    rewrite (d1_scale lam _ _ r _ _ q Hl (HKi i Hi)).
    split; [ring | reflexivity].
Qed.

Lemma price_homogeneous_witness :
  exists g g',
    black_scholes sample_S sample_K 0.05 sample_t sample_sigma "Call" 0.02
    = Ok g
    /\ black_scholes (float_mul 2 sample_S) (float_mul 2 sample_K) 0.05
         sample_t sample_sigma "Call" 0.02 = Ok g'
    /\ item (price g') 1 = 2 * item (price g) 1.
Proof.
  destruct (price_homogeneous 2 sample_S sample_K 0.05 sample_t sample_sigma
              "Call" 0.02 (Some 3%nat))
    as (g & g' & Eg & Eg' & H).
  - lra.
  - reflexivity.
  - exact sample_S_positive.
  - exact sample_K_positive.
  - exact sample_t_positive.
  - exact sample_sigma_positive.
  - left; reflexivity.
  - exists g, g'. split; [exact Eg|]. split; [exact Eg'|].
    apply (H 1%nat). simpl. lia.
Defined.

End BlackScholesExtra.

(** ** Further facts about [monte_carlo_european] *)

Module MonteCarloExtra.
Import MonteCarlo MonteCarloFacts.

Lemma Rsum_map_linear (K : R) (l : list R) :
  Rsum (map (fun x => x - K) l) = Rsum l - INR (length l) * K.
Proof.
  unfold Rsum. induction l as [|x l IH]; [simpl; lra|].
  cbn [map fold_right length]. rewrite IH, S_INR. lra.
Qed.

Lemma Rsum_map_sub (f g : R -> R) (l : list R) :
  Rsum (map f l) - Rsum (map g l) = Rsum (map (fun x => f x - g x) l).
Proof.
  unfold Rsum. induction l as [|x l IH]; [simpl; lra|].
  cbn [map fold_right]. rewrite <- IH. lra.
Qed.

Lemma Rsum_map_le {A : Type} (f g : A -> R) (l : list A) :
  Forall (fun x => f x <= g x) l -> Rsum (map f l) <= Rsum (map g l).
Proof.
  unfold Rsum. induction 1 as [|x l Hx _ IH]; [simpl; lra|].
  cbn [map fold_right]. lra.
Qed.

Lemma np_mean_map_le {A : Type} (f g : A -> R) (l : list A) :
  l <> [] -> Forall (fun x => f x <= g x) l ->
  np_mean (map f l) <= np_mean (map g l).
Proof.
  intros Hl H. unfold np_mean. rewrite !length_map.
  apply Rmult_le_compat_r; [|now apply Rsum_map_le].
  apply Rlt_le, Rinv_0_lt_compat, lt_0_INR.
  destruct l; [congruence | simpl; lia].
Qed.

Lemma np_mean_const_fun {A : Type} (c : R) (l : list A) :
  l <> [] -> np_mean (map (fun _ => c) l) = c.
Proof.
  intros Hl. rewrite map_const. apply np_mean_repeat.
  destruct l; [congruence | simpl; lia].
Qed.

Lemma payoff_difference (K x : R) : call_payoff K x - put_payoff K x = x - K.
Proof.
  unfold call_payoff, put_payoff, Rmax.
  destruct (Rle_dec (x - K) 0), (Rle_dec (K - x) 0); lra.
Qed.

Lemma path_value_nonneg (S0 r sigma dt : R) (zs : list R) (j : nat) :
  0 <= S0 -> 0 <= path_value S0 r sigma dt zs j.
Proof.
  intros H. unfold path_value. apply Rmult_le_pos; [exact H|].
  apply Rlt_le, exp_pos.
Qed.

Lemma path_value_zero_volatility (S0 r dt : R) (zs : list R) (j : nat) :
  path_value S0 r 0 dt zs j = S0 * exp (INR j * (r * dt)).
Proof.
  induction j as [|j IH].
  - rewrite path_value_0. simpl. rewrite Rmult_0_l, exp_0. lra.
  - rewrite path_value_S, IH, S_INR, Rmult_assoc, <- exp_plus.
    f_equal. f_equal. unfold log_return. lra.
Qed.

Lemma Forall2_map_same {A B : Type} (P : B -> B -> Prop) (f g : A -> B)
    (l : list A) :
  (forall x, In x l -> P (f x) (g x)) -> Forall2 P (map f l) (map g l).
Proof.
  induction l as [|x l IH]; intros H; simpl; constructor.
  - apply H. now left.
  - apply IH. intros y Hy. apply H. now right.
Qed.

(** Two generators that agree off the first column draw matrices that agree
    off the first column. *)
Lemma variates_agree (mt1 mt2 : Z -> nat -> R) (n m : nat) :
  (forall k, (k mod m <> 0)%nat -> mt1 42%Z k = mt2 42%Z k) ->
  Forall2 (fun zs zs' => forall j, (1 <= j)%nat -> nth j zs 0 = nth j zs' 0)
    (variates mt1 n m) (variates mt2 n m).
Proof.
  intros H. unfold variates. apply Forall2_map_same. intros i _ j Hj.
  destruct (Nat.lt_ge_cases j m) as [Hlt|Hge].
  - rewrite !(nth_map_in _ _ _ _ 0%nat) by now rewrite length_seq.
    rewrite seq_nth by exact Hlt. cbn [Nat.add].
    apply H. rewrite Nat.add_comm, Nat.Div0.mod_add, Nat.mod_small; lia.
  - rewrite !nth_overflow; [reflexivity | |];
      now rewrite length_map, length_seq.
Qed.

Section Sizes.

Variable mt19937_normals : Z -> nat -> R.
Variables S0 K T r sigma : R.
Variables num_simulations num_steps : Z.

Let n : nat := Z.to_nat num_simulations.
Let m : nat := Z.to_nat num_steps.
Let dt : R := T / IZR num_steps.
Let ST : list R :=
  column (gbm_paths S0 r sigma dt (variates mt19937_normals n m) n m) (m - 1).

Hypothesis Hsims : (1 <= num_simulations)%Z.
Hypothesis Hsteps : (1 <= num_steps)%Z.

Lemma terminal_prices :
  ST = map (fun zs => path_value S0 r sigma dt zs (m - 1))
         (variates mt19937_normals n m).
Proof. apply terminal_column. exact Hsteps. Qed.

Lemma terminal_prices_nonempty : ST <> [].
Proof.
  rewrite terminal_prices. intros E. apply (f_equal (@length R)) in E.
  unfold variates in E. rewrite !length_map, length_seq in E. subst n.
  simpl in E. lia.
Qed.

Lemma variates_nonempty : variates mt19937_normals n m <> [].
Proof.
  intros E. apply (f_equal (@length (list R))) in E.
  unfold variates in E. rewrite length_map, length_seq in E. subst n.
  simpl in E. lia.
Qed.

Lemma call_price_run (g : RandomState) :
  fst (monte_carlo_european mt19937_normals S0 K T r sigma "Call"
         num_simulations num_steps g)
  = Ok (exp (- r * T) * np_mean (map (call_payoff K) ST)).
Proof. rewrite monte_carlo_european_run by lia. reflexivity. Qed.

Lemma put_price_run (g : RandomState) :
  fst (monte_carlo_european mt19937_normals S0 K T r sigma "Put"
         num_simulations num_steps g)
  = Ok (exp (- r * T) * np_mean (map (put_payoff K) ST)).
Proof. rewrite monte_carlo_european_run by lia. reflexivity. Qed.

End Sizes.

(** X12: with [num_steps = 0] the call raises [ZeroDivisionError] and leaves
    the generator as it was; with a negative [num_steps], or a negative
    [num_simulations] and [num_steps <> 0], it raises numpy's [ValueError]
    for negative dimensions once the generator is reseeded, with no variate
    drawn.  The option type plays no part. *)
Theorem invalid_sizes_raise (mt19937_normals : Z -> nat -> R)
    (S0 K T r sigma : R) (option_type : string)
    (num_simulations num_steps : Z) (g : RandomState) :
  (num_steps <= 0 \/ num_simulations < 0)%Z ->
  monte_carlo_european mt19937_normals S0 K T r sigma option_type
    num_simulations num_steps g
  = if (num_steps =? 0)%Z then (Raise ZeroDivisionError, g)
    else (Raise negative_dimensions, seeded_42 mt19937_normals 0).
Proof.
  intros H. unfold monte_carlo_european.
  destruct (Z.eqb_spec num_steps 0) as [E|E]; [reflexivity|].
  cbv zeta. unfold standard_normal.
  replace ((num_simulations <? 0)%Z || (num_steps <? 0)%Z)%bool with true;
    [reflexivity|].
  symmetry. apply orb_true_iff.
  destruct H as [H|H]; [right | left]; apply Z.ltb_lt; lia.
Qed.

Lemma invalid_sizes_raise_witness :
  monte_carlo_european sample_normals 100 110 1 0.05 0.2 "Call" (-1) 252
    sample_state
  = (Raise negative_dimensions, seeded_42 sample_normals 0)
  /\ monte_carlo_european sample_normals 100 110 1 0.05 0.2 "Call" 10000 0
       sample_state
     = (Raise ZeroDivisionError, sample_state).
Proof.
  split.
  - apply (invalid_sizes_raise sample_normals 100 110 1 0.05 0.2 "Call" (-1)
             252 sample_state). right. lia.
  - apply (invalid_sizes_raise sample_normals 100 110 1 0.05 0.2 "Call" 10000
             0 sample_state). left. lia.
Defined.

(** X13: a call with [num_simulations >= 0] and [num_steps >= 1] leaves the
    global generator seeded with 42 and advanced by
    [num_simulations * num_steps] draws, whatever it held before and
    whatever the option type is. *)
Theorem generator_after_call (mt19937_normals : Z -> nat -> R)
    (S0 K T r sigma : R) (option_type : string)
    (num_simulations num_steps : Z) (g : RandomState) :
  (0 <= num_simulations)%Z -> (1 <= num_steps)%Z ->
  snd (monte_carlo_european mt19937_normals S0 K T r sigma option_type
         num_simulations num_steps g)
  = seeded_42 mt19937_normals (Z.to_nat num_simulations * Z.to_nat num_steps).
Proof.
  intros Hn Hm. rewrite monte_carlo_european_run by assumption. cbv zeta.
  destruct (option_type =? "Call")%string; [reflexivity|].
  destruct (option_type =? "Put")%string; reflexivity.
Qed.

Lemma generator_after_call_witness :
  snd (monte_carlo_european sample_normals 100 110 1 0.05 0.2 "Put" 4 3
         sample_state)
  = seeded_42 sample_normals 12.
Proof.
  apply (generator_after_call sample_normals 100 110 1 0.05 0.2 "Put" 4 3
           sample_state); lia.
Defined.

(** X14: for [T >= 0], the call and the put priced with the same parameters
    use the same paths, so their prices differ by [exp (- r T) * (mean (ST) - K)], where
    [ST] is the terminal column of the paths. *)
Theorem simulated_put_call_parity (mt19937_normals : Z -> nat -> R)
    (S0 K T r sigma : R) (num_simulations num_steps : Z)
    (g g' : RandomState) :
  0 <= T ->
  (1 <= num_simulations)%Z -> (1 <= num_steps)%Z ->
  exists call_price put_price,
    fst (monte_carlo_european mt19937_normals S0 K T r sigma "Call"
           num_simulations num_steps g) = Ok call_price
    /\ fst (monte_carlo_european mt19937_normals S0 K T r sigma "Put"
              num_simulations num_steps g') = Ok put_price
    /\ call_price - put_price
       = exp (- r * T)
         * (np_mean
              (column
                 (gbm_paths S0 r sigma (T / IZR num_steps)
                    (variates mt19937_normals (Z.to_nat num_simulations)
                       (Z.to_nat num_steps))
                    (Z.to_nat num_simulations) (Z.to_nat num_steps))
                 (Z.to_nat num_steps - 1))
            - K).
Proof.
  intros _ Hn Hm. eexists. eexists.
  split; [apply call_price_run; lia|]. split; [apply put_price_run; lia|].
  pose proof (terminal_prices_nonempty mt19937_normals S0 T r sigma
                num_simulations num_steps Hn Hm) as Hne.
  set (ST := column _ _) in *.
  rewrite <- Rmult_minus_distr_l. f_equal.
  unfold np_mean. rewrite !length_map.
  assert (Hlen : INR (length ST) <> 0).
  { apply not_0_INR. destruct ST; [congruence | simpl; lia]. }
  unfold Rdiv. rewrite <- Rmult_minus_distr_r, Rsum_map_sub.
  rewrite (map_ext _ (fun x => x - K)) by (intros x; cbv beta; apply payoff_difference).
  rewrite Rsum_map_linear. field. exact Hlen.
Qed.

Lemma simulated_put_call_parity_witness :
  exists call_price put_price,
    fst (monte_carlo_european sample_normals 100 110 1 0.05 0.2 "Call" 4 3
           sample_state) = Ok call_price
    /\ fst (monte_carlo_european sample_normals 100 110 1 0.05 0.2 "Put" 4 3
              sample_state) = Ok put_price
    /\ call_price - put_price
       = exp (- (0.05) * 1)
         * (np_mean
              (column
                 (gbm_paths 100 0.05 0.2 (1 / IZR 3)
                    (variates sample_normals (Z.to_nat 4) (Z.to_nat 3))
                    (Z.to_nat 4) (Z.to_nat 3))
                 (Z.to_nat 3 - 1))
            - 110).
Proof.
  apply (simulated_put_call_parity sample_normals 100 110 1 0.05 0.2 4 3
           sample_state sample_state); [lra | lia | lia].
Defined.

(** X15: for [T >= 0], with [sigma = 0] every path is the same and the drift acts over
    [num_steps - 1] steps of length [T / num_steps]: the call price is
    [exp (- r T) * max (S0 * exp ((num_steps - 1) * (r * (T / num_steps))) - K, 0)]
    and the put price the same with [K - S0 * exp (...)]. *)
Theorem zero_volatility_price (mt19937_normals : Z -> nat -> R)
    (S0 K T r : R) (num_simulations num_steps : Z) (g : RandomState) :
  0 <= T ->
  (1 <= num_simulations)%Z -> (1 <= num_steps)%Z ->
  fst (monte_carlo_european mt19937_normals S0 K T r 0 "Call"
         num_simulations num_steps g)
  = Ok (exp (- r * T)
        * Rmax (S0 * exp (IZR (num_steps - 1) * (r * (T / IZR num_steps))) - K)
            0)
  /\ fst (monte_carlo_european mt19937_normals S0 K T r 0 "Put"
            num_simulations num_steps g)
     = Ok (exp (- r * T)
           * Rmax (K - S0 * exp (IZR (num_steps - 1)
                                 * (r * (T / IZR num_steps))))
               0).
Proof.
  intros _ Hn Hm.
  pose proof (variates_nonempty mt19937_normals num_simulations num_steps Hn
                Hm) as Hne.
  assert (HI : INR (Z.to_nat num_steps - 1) = IZR (num_steps - 1)).
  { rewrite INR_IZR_INZ. f_equal. lia. }
  rewrite call_price_run, put_price_run by lia.
  rewrite terminal_prices by lia.
  rewrite (map_ext
             (fun zs => path_value S0 r 0 (T / IZR num_steps) zs
                          (Z.to_nat num_steps - 1))
             (fun _ => S0 * exp (IZR (num_steps - 1)
                                 * (r * (T / IZR num_steps)))))
    by (intros zs; cbv beta; now rewrite path_value_zero_volatility, HI).
  rewrite !map_map.
  rewrite (np_mean_const_fun (call_payoff K _) _ Hne).
  rewrite (np_mean_const_fun (put_payoff K _) _ Hne).
  split; reflexivity.
Qed.

Lemma zero_volatility_price_witness :
  fst (monte_carlo_european sample_normals 100 110 1 0.05 0 "Call" 4 3
         sample_state)
  = Ok (exp (- (0.05) * 1)
        * Rmax (100 * exp (IZR (3 - 1) * (0.05 * (1 / IZR 3))) - 110) 0).
Proof.
  apply (zero_volatility_price sample_normals 100 110 1 0.05 4 3 sample_state);
    [lra | lia | lia].
Defined.

(** X16: for a positive [S0] and [T >= 0] every price on every simulated path is
    positive. *)
Theorem paths_positive (mt19937_normals : Z -> nat -> R)
    (S0 T r sigma : R) (num_simulations num_steps : Z) (i j : nat) :
  0 < S0 -> 0 <= T ->
  (i < Z.to_nat num_simulations)%nat -> (j < Z.to_nat num_steps)%nat ->
  0 < entry (gbm_paths S0 r sigma (T / IZR num_steps)
               (variates mt19937_normals (Z.to_nat num_simulations)
                  (Z.to_nat num_steps))
               (Z.to_nat num_simulations) (Z.to_nat num_steps)) i j.
Proof.
  intros HS _ Hi Hj. rewrite entry_gbm_paths; try assumption.
  - unfold path_value. apply Rmult_lt_0_compat; [exact HS | apply exp_pos].
  - unfold variates. now rewrite length_map, length_seq.
Qed.

Lemma paths_positive_witness :
  0 < entry (gbm_paths 100 0.05 0.2 (1 / IZR 3)
               (variates sample_normals (Z.to_nat 4) (Z.to_nat 3))
               (Z.to_nat 4) (Z.to_nat 3)) 3 2.
Proof.
  apply (paths_positive sample_normals 100 1 0.05 0.2 4 3 3 2);
    [lra | lra | simpl; lia | simpl; lia].
Defined.

(** X17: for [S0 >= 0], [K >= 0] and [T >= 0] the put price is at most the discounted
    strike [exp (- r T) * K]. *)
Theorem put_price_at_most_discounted_strike (mt19937_normals : Z -> nat -> R)
    (S0 K T r sigma : R) (num_simulations num_steps : Z) (g : RandomState) :
  0 <= S0 -> 0 <= K -> 0 <= T ->
  (1 <= num_simulations)%Z -> (1 <= num_steps)%Z ->
  exists put_price,
    fst (monte_carlo_european mt19937_normals S0 K T r sigma "Put"
           num_simulations num_steps g) = Ok put_price
    /\ put_price <= exp (- r * T) * K.
Proof.
  intros HS HK _ Hn Hm. eexists. split; [apply put_price_run; lia|].
  pose proof (variates_nonempty mt19937_normals num_simulations num_steps Hn
                Hm) as Hne.
  apply Rmult_le_compat_l; [apply Rlt_le, exp_pos|].
  rewrite terminal_prices by lia. rewrite map_map.
  apply Rle_trans
    with (np_mean (map (fun _ : list R => K)
                     (variates mt19937_normals (Z.to_nat num_simulations)
                        (Z.to_nat num_steps)))).
  - apply np_mean_map_le; [exact Hne|].
    apply Forall_forall. intros zs _.
    pose proof (path_value_nonneg S0 r sigma (T / IZR num_steps) zs
                  (Z.to_nat num_steps - 1) HS) as Hx.
    unfold put_payoff, Rmax.
    destruct (Rle_dec _ 0); lra.
  - rewrite (np_mean_const_fun K _ Hne). lra.
Qed.

Lemma put_price_at_most_discounted_strike_witness :
  exists put_price,
    fst (monte_carlo_european sample_normals 100 110 1 0.05 0.2 "Put" 4 3
           sample_state) = Ok put_price
    /\ put_price <= exp (- (0.05) * 1) * 110.
Proof.
  apply (put_price_at_most_discounted_strike sample_normals 100 110 1 0.05 0.2
           4 3 sample_state); [lra | lra | lra | lia | lia].
Defined.

(** X18: for [T >= 0], the call price does not increase and the put price does not
    decrease when the strike is raised, everything else fixed. *)
Theorem prices_monotone_in_strike (mt19937_normals : Z -> nat -> R)
    (S0 K1 K2 T r sigma : R) (num_simulations num_steps : Z)
    (g : RandomState) :
  K1 <= K2 -> 0 <= T ->
  (1 <= num_simulations)%Z -> (1 <= num_steps)%Z ->
  exists c1 c2 p1 p2,
    fst (monte_carlo_european mt19937_normals S0 K1 T r sigma "Call"
           num_simulations num_steps g) = Ok c1
    /\ fst (monte_carlo_european mt19937_normals S0 K2 T r sigma "Call"
              num_simulations num_steps g) = Ok c2
    /\ fst (monte_carlo_european mt19937_normals S0 K1 T r sigma "Put"
              num_simulations num_steps g) = Ok p1
    /\ fst (monte_carlo_european mt19937_normals S0 K2 T r sigma "Put"
              num_simulations num_steps g) = Ok p2
    /\ c2 <= c1 /\ p1 <= p2.
Proof.
  intros HK _ Hn Hm. eexists. eexists. eexists. eexists.
  split; [apply call_price_run; lia|]. split; [apply call_price_run; lia|].
  split; [apply put_price_run; lia|]. split; [apply put_price_run; lia|].
  pose proof (terminal_prices_nonempty mt19937_normals S0 T r sigma
                num_simulations num_steps Hn Hm) as Hne.
  set (ST := column _ _) in *.
  split; (apply Rmult_le_compat_l; [apply Rlt_le, exp_pos|]);
    (apply np_mean_map_le; [exact Hne|]); apply Forall_forall; intros x _.
  - unfold call_payoff, Rmax.
    destruct (Rle_dec (x - K2) 0), (Rle_dec (x - K1) 0); lra.
  - unfold put_payoff, Rmax.
    destruct (Rle_dec (K1 - x) 0), (Rle_dec (K2 - x) 0); lra.
Qed.

Lemma prices_monotone_in_strike_witness :
  exists c1 c2 p1 p2,
    fst (monte_carlo_european sample_normals 100 100 1 0.05 0.2 "Call" 4 3
           sample_state) = Ok c1
    /\ fst (monte_carlo_european sample_normals 100 110 1 0.05 0.2 "Call" 4 3
              sample_state) = Ok c2
    /\ fst (monte_carlo_european sample_normals 100 100 1 0.05 0.2 "Put" 4 3
              sample_state) = Ok p1
    /\ fst (monte_carlo_european sample_normals 100 110 1 0.05 0.2 "Put" 4 3
              sample_state) = Ok p2
    /\ c2 <= c1 /\ p1 <= p2.
Proof.
  apply (prices_monotone_in_strike sample_normals 100 100 110 1 0.05 0.2 4 3
           sample_state); [lra | lra | lia | lia].
Defined.

(** X19: for [T >= 0], the result does not depend on the variates of column [0]: two
    generators whose sequences after seeding with 42 agree at every position
    that is not a multiple of [num_steps] give the same result. *)
Theorem result_ignores_first_column (mt1 mt2 : Z -> nat -> R)
    (S0 K T r sigma : R) (option_type : string)
    (num_simulations num_steps : Z) (g1 g2 : RandomState) :
  0 <= T ->
  (0 <= num_simulations)%Z -> (1 <= num_steps)%Z ->
  (forall k, (k mod Z.to_nat num_steps <> 0)%nat -> mt1 42%Z k = mt2 42%Z k) ->
  fst (monte_carlo_european mt1 S0 K T r sigma option_type
         num_simulations num_steps g1)
  = fst (monte_carlo_european mt2 S0 K T r sigma option_type
           num_simulations num_steps g2).
Proof.
  intros _ Hn Hm H. rewrite !monte_carlo_european_run by assumption. cbv zeta.
  rewrite (gbm_paths_ext S0 r sigma (T / IZR num_steps)
             (variates mt1 (Z.to_nat num_simulations) (Z.to_nat num_steps))
             (variates mt2 (Z.to_nat num_simulations) (Z.to_nat num_steps)))
    by (try apply variates_agree; try assumption;
        unfold variates; now rewrite length_map, length_seq).
  destruct (option_type =? "Call")%string; [reflexivity|].
  destruct (option_type =? "Put")%string; reflexivity.
Qed.

Lemma result_ignores_first_column_witness :
  fst (monte_carlo_european sample_normals 100 110 1 0.05 0.2 "Call" 4 3
         sample_state)
  = fst (monte_carlo_european sample_normals_alt 100 110 1 0.05 0.2 "Call" 4 3
           sample_state).
Proof.
  apply (result_ignores_first_column sample_normals sample_normals_alt 100 110
           1 0.05 0.2 "Call" 4 3 sample_state sample_state); [lra | lia | lia |].
  intros k Hk. unfold sample_normals_alt.
  change (Z.to_nat 3) with 3%nat in Hk.
  destruct (Nat.eqb_spec (k mod 3) 0) as [E|E]; [contradiction | reflexivity].
Defined.

End MonteCarloExtra.
